(** * fss-parse-pdf-ts: page ranges, the PDF modifier and the batch commands

    A shallow embedding of [src/pdf-parser.ts], of the [PDFModifier] class
    and of the [modify] / [batch-modify] command actions of [src/cli.ts].

    JavaScript values are modelled as follows.
    - strings are [string] (one character per code unit, ASCII range);
    - a [number] is [NaN], an infinity or an exact rational: the rounding of
      IEEE doubles is not modelled;
    - an exception is the [message] of the thrown [Error]; code that can
      throw returns a [Result];
    - the object [modifications] of the batch command, which is built with
      spreads and inspected with [Object.keys], is a [gmap] from key to value;
    - Node's file system, pdf-lib, pdf-parse and the wall clock are fields of
      a [World] record. *)

From Stdlib Require Import ZArith QArith String Ascii List Lia Bool DecimalString.
From stdpp Require Import base list strings gmap.

Local Open Scope string_scope.
Local Open Scope Z_scope.

(** ** JavaScript built-ins used by the sources *)

Module JS.

Inductive number : Type :=
| NaN
| Infinity (negative : bool)
| Num (q : Q).

Definition of_Z (z : Z) : number := Num (inject_Z z).

(** [ToBoolean] on a number: [NaN] and zero are falsy. *)
Definition truthy (n : number) : bool :=
  match n with
  | NaN => false
  | Infinity _ => true
  | Num q => negb (Qnum q =? 0)
  end.

(** [v || d] on an optional number ([undefined] is falsy). *)
Definition or_default (v : option number) (d : number) : number :=
  match v with
  | Some n => if truthy n then n else d
  | None => d
  end.

(** The array index a number denotes, if it is a non-negative integer:
    [arr[n]] is [undefined] for every other number. *)
Definition array_index (n : number) : option nat :=
  match n with
  | Num q =>
      let r := Qred q in
      if (Qden r =? 1)%positive && (0 <=? Qnum r) then Some (Z.to_nat (Qnum r)) else None
  | _ => None
  end.

Inductive Result (A : Type) : Type :=
| Ok (a : A)
| Throw (message : string).
Arguments Ok {A} a.
Arguments Throw {A} message.

Definition bind {A B} (r : Result A) (k : A -> Result B) : Result B :=
  match r with
  | Ok a => k a
  | Throw m => Throw m
  end.

#[global] Instance Result_fmap : FMap Result :=
  fun A B f r => bind r (fun a => Ok (f a)).

(** The text of [`${error}`] for a thrown [Error]. *)
Definition error_to_string (message : string) : string := "Error: " ++ message.

Definition is_white (c : ascii) : bool :=
  let n := nat_of_ascii c in
  ((n =? 32) || (n =? 9) || (n =? 10) || (n =? 11) || (n =? 12) || (n =? 13))%nat.

Fixpoint trim_start (s : string) : string :=
  match s with
  | String c r => if is_white c then trim_start r else s
  | EmptyString => EmptyString
  end.

Fixpoint rev_string (s : string) : string :=
  match s with
  | EmptyString => EmptyString
  | String c r => rev_string r ++ String c EmptyString
  end.

Definition trim (s : string) : string :=
  rev_string (trim_start (rev_string (trim_start s))).

(** [s.split(sep)] for a one-character separator: never empty. *)
Fixpoint split (sep : ascii) (s : string) : list string :=
  match s with
  | EmptyString => [EmptyString]
  | String c r =>
      if Ascii.eqb c sep then EmptyString :: split sep r
      else match split sep r with
           | h :: t => String c h :: t
           | [] => [String c EmptyString]
           end
  end.

Fixpoint join (sep : string) (l : list string) : string :=
  match l with
  | [] => EmptyString
  | [x] => x
  | x :: r => x ++ sep ++ join sep r
  end.

Fixpoint starts_with (p s : string) : bool :=
  match p, s with
  | EmptyString, _ => true
  | String a p', String b s' => Ascii.eqb a b && starts_with p' s'
  | String _ _, EmptyString => false
  end.

Fixpoint includes (p s : string) : bool :=
  starts_with p s ||
  match s with
  | EmptyString => false
  | String _ r => includes p r
  end.

Definition ends_with (p s : string) : bool :=
  starts_with (rev_string p) (rev_string s).

Definition lower_char (c : ascii) : ascii :=
  let n := nat_of_ascii c in
  if ((65 <=? n) && (n <=? 90))%nat then ascii_of_nat (n + 32) else c.

Fixpoint to_lower_case (s : string) : string :=
  match s with
  | EmptyString => EmptyString
  | String c r => String (lower_char c) (to_lower_case r)
  end.

Fixpoint drop_chars (n : nat) (s : string) : string :=
  match n, s with
  | O, _ => s
  | S k, String _ r => drop_chars k r
  | S _, EmptyString => EmptyString
  end.

(** [s.slice(a, b)] for [0 <= a]. *)
Definition slice (a b : nat) (s : string) : string :=
  String.substring (Nat.min a (String.length s)) (Nat.min b (String.length s) - Nat.min a (String.length s)) s.

Definition digit_value (radix : Z) (c : ascii) : option Z :=
  let n := Z.of_nat (nat_of_ascii c) in
  let v := if (48 <=? n) && (n <=? 57) then Some (n - 48)
           else if (97 <=? n) && (n <=? 122) then Some (n - 87)
           else if (65 <=? n) && (n <=? 90) then Some (n - 55)
           else None in
  match v with
  | Some d => if d <? radix then Some d else None
  | None => None
  end.

(** The longest prefix of digits: its value (from [acc]), how many digits
    were read and the rest of the string. *)
Fixpoint read_digits (radix : Z) (s : string) (acc : Z) (count : nat) : Z * nat * string :=
  match s with
  | String c r =>
      match digit_value radix c with
      | Some d => read_digits radix r (acc * radix + d) (S count)
      | None => (acc, count, s)
      end
  | EmptyString => (acc, count, s)
  end.

Definition read_sign (s : string) : bool * string :=
  match s with
  | String "-" r => (true, r)
  | String "+" r => (false, r)
  | _ => (false, s)
  end.

(** [parseInt(s)] without a radix: [None] is [NaN]. *)
Definition parseInt (s : string) : option Z :=
  let '(neg, r) := read_sign (trim_start s) in
  let '(radix, r) :=
    if starts_with "0x" r || starts_with "0X" r then (16, drop_chars 2 r) else (10, r) in
  let '(v, count, _) := read_digits radix r 0 O in
  match count with
  | O => None
  | S _ => Some (if neg then - v else v)
  end.

Definition parseInt_number (s : string) : number :=
  match parseInt s with
  | Some z => of_Z z
  | None => NaN
  end.

Definition pow10 (e : Z) : Q :=
  if 0 <=? e then inject_Z (10 ^ e) else Qmake 1 (Z.to_pos (10 ^ (- e))).

(** The exponent part [e[+-]ddd] of a decimal literal, when well formed. *)
Definition read_exponent (s : string) : Z :=
  match s with
  | String c r =>
      if Ascii.eqb c "e" || Ascii.eqb c "E" then
        let '(neg, r') := read_sign r in
        let '(v, count, _) := read_digits 10 r' 0 O in
        match count with
        | O => 0
        | S _ => if neg then - v else v
        end
      else 0
  | EmptyString => 0
  end.

(** [parseFloat(s)]: the longest prefix that is a decimal literal. *)
Definition parseFloat (s : string) : number :=
  let '(neg, r) := read_sign (trim_start s) in
  if starts_with "Infinity" r then Infinity neg
  else
    let '(int_part, int_count, r1) := read_digits 10 r 0 O in
    let '(mantissa, frac_count, r2) :=
      match r1 with
      | String "." r' =>
          let '(m, total, rest) := read_digits 10 r' int_part int_count in
          (m, (total - int_count)%nat, rest)
      | _ => (int_part, O, r1)
      end in
    match (int_count + frac_count)%nat with
    | O => NaN
    | S _ =>
        let e := read_exponent r2 - Z.of_nat frac_count in
        let q := Qred (Qmult (inject_Z mantissa) (pow10 e)) in
        Num (if neg then Qopp q else q)
    end.

(** [arr.includes(x)] on numbers. *)
Definition includes_Z (x : Z) (l : list Z) : bool := existsb (Z.eqb x) l.

Fixpoint insert_sorted (x : Z) (l : list Z) : list Z :=
  match l with
  | [] => [x]
  | y :: r => if x <=? y then x :: l else y :: insert_sorted x r
  end.

(** [arr.sort((a, b) => a - b)]: the ascending arrangement of [l]. *)
Definition sort_numeric (l : list Z) : list Z := fold_right insert_sorted [] l.

(** [s.replace(/c/g, replacement)] for a pattern that is one literal character. *)
Fixpoint replace_char (c : ascii) (replacement : string) (s : string) : string :=
  match s with
  | EmptyString => EmptyString
  | String d r =>
      if Ascii.eqb d c then replacement +:+ replace_char c replacement r
      else String d (replace_char c replacement r)
  end.

End JS.

Import JS.

Definition nl : string := String (ascii_of_nat 10) EmptyString.
Definition form_feed : ascii := ascii_of_nat 12.

(** [String(n)] for an integral number. *)
Definition Z_to_string (z : Z) : string := DecimalString.NilZero.string_of_int (Z.to_int z).

(** ** Data model *)

(** [src/types.ts] *)
Record PdfConfig := {
  extractMetadata : option bool;
  extractImages : option bool;
  includePageInfo : option bool;
  outputFormat : option string;
  safetyChecks : option bool;
  maxPages : option number;
  password : option string
}.

(** A [Date] object of the library, with the two renderings the sources use. *)
Record Date := {
  toISOString : string;
  toTimeString : string
}.

(** What [parseDate] returns: [new Date(y, m, d, h, mi, s)] or [new Date(s)]. *)
Inductive MetadataDate : Type :=
| DateOfFields (year month day hour minute second : option Z)
| DateOfString (d : Date).

Record PdfMetadata := {
  title : option string;
  author : option string;
  subject : option string;
  creator : option string;
  producer : option string;
  keywords : option string;
  creationDate : option (option MetadataDate);
  modificationDate : option (option MetadataDate)
}.

Record PageInfo := {
  pageNumber : Z;
  content : string
}.

Record PdfData := {
  text : string;
  pages : option (list PageInfo);
  metadata : option PdfMetadata;
  totalPages : Z
}.

Record ProcessingResult := {
  success : bool;
  data : option PdfData;
  result_metadata : option PdfMetadata;
  warnings : list string;
  errors : list string;
  processingTime : option Z
}.

Record SafetyResult := {
  isSafe : bool;
  issues : list string;
  hash : string;
  fileSize : Z
}.

(** What pdf-parse hands back: the [info] dictionary and the text. *)
Record InfoDict := {
  Title : option string;
  Author : option string;
  Subject : option string;
  Creator : option string;
  Producer : option string;
  Keywords : option string;
  CreationDate : option string;
  ModDate : option string
}.

Record PdfParseOutput := {
  pp_text : string;
  numpages : Z;
  info : option InfoDict
}.

Record PdfParseOptions := {
  opt_password : option string;
  opt_max : option number
}.

(** The interfaces of the modifier (second half of [src/safety-manager.ts]). *)
Record SignatureOptions := {
  sig_position : list number;
  sig_imagePath : option string;
  sig_text : option string;
  sig_fontSize : option number;
  sig_color : option (list number)
}.

Inductive FieldValue : Type :=
| VString (s : string)
| VNumber (n : number)
| VBoolean (b : bool).

Record FormFillData := {
  fieldName : string;
  fieldValue : FieldValue;
  fieldType : option string
}.

Record TextInsertion := {
  ti_text : string;
  ti_position : list number;
  ti_pageNumber : option number;
  ti_fontSize : option number;
  ti_color : option (list number);
  ti_fontName : option string
}.

Record ImageInsertion := {
  im_imagePath : string;
  im_position : list number;
  im_pageNumber : option number
}.

Record PDFModificationResult := {
  m_success : bool;
  modificationsApplied : nat;
  signaturesAdded : nat;
  formsFilled : nat;
  textInsertions : nat;
  imageInsertions : nat;
  outputPath : string;
  m_processingTime : Z;
  errorMessage : option string
}.

(** *** The pdf-lib document, as far as the modifier touches it *)

Inductive FieldClass : Type :=
| PDFTextField
| PDFCheckBox
| PDFRadioGroup
| PDFOtherField.

Inductive FieldContent : Type :=
| Unset
| TextContent (s : string)
| Checked (b : bool)
| Selected (option_name : string).

Record PDFField := {
  getName : string;
  constructor_name : FieldClass;
  getMaxLength : option nat;
  getOptions : list string;
  field_content : FieldContent
}.

Inductive ImageFormat : Type := Png | Jpg.

Record PDFImage := {
  image_format : ImageFormat;
  image_bytes : string
}.

Inductive DrawOp : Type :=
| DrawText (text : string) (x y : option number) (size : number) (color : number * number * number)
| DrawImage (image : PDFImage) (box : list number).

(** A page is the list of what has been drawn on it, oldest first. *)
Record PDFDocument := {
  getPages : list (list DrawOp);
  getFields : list PDFField;
  embedded : list PDFImage
}.

(** *** The batch command's [modifications] object *)

Inductive JValue : Type :=
| JSignatures (l : list SignatureOptions)
| JFormData (l : list FormFillData)
| JTextInsertions (l : list TextInsertion)
| JBool (b : bool)
| JOther.

Abbreviation Modifications := (gmap string JValue).

(** ** The environment

    Node's [fs], [path], [crypto] and [glob], pdf-parse, pdf-lib and the wall
    clock.  None of them is defined in the repository. *)
Record World := {
  existsSync : string -> bool;
  statSync_size : string -> Result Z;
  readFileSync : string -> Result string;
  mkdirSync : string -> Result unit;
  extname : string -> string;
  basename : string -> string;
  path_join : string -> string -> string;
  glob_sync : string -> list string;
  sha256_hex : string -> string;
  (** [new Date(s)]: [None] when the time value is [NaN] *)
  Date_parse : string -> option Date;
  (** the [n]-th [new Date()] of a run *)
  new_Date : nat -> Date;
  (** [Date.now() - startTime] measured for the work on a path *)
  elapsed : string -> Z;
  Number_toString : number -> string;
  pdfParse : string -> PdfParseOptions -> Result PdfParseOutput;
  (** [JSON.parse(fs.readFileSync(path, 'utf8'))] *)
  read_json_config : string -> Result Modifications;
  PDFDocument_load : string -> Result PDFDocument;
  (** whether the bytes decode as an image of the format *)
  embedPng_ok : string -> Result unit;
  embedJpg_ok : string -> Result unit;
  (** whether the standard font can encode the text *)
  encodable : string -> Result unit;
  (** [pdfDoc.save()] followed by [fs.writeFileSync(path, bytes)] *)
  save_and_write : string -> PDFDocument -> Result unit
}.

(** ** [SafetyManager] (first half of [src/safety-manager.ts]) *)

Module SafetyManager.

Definition maxFileSize : Z := 100 * 1024 * 1024.

Definition allowedExtensions (generationMode : bool) : list string :=
  if generationMode then [".md"; ".markdown"; ".txt"; ".text"] else [".pdf"].

Definition validatePdfHeader (buffer : string) : bool :=
  starts_with "%PDF-" (slice 0 8 buffer).

Definition suspiciousPatterns : list string :=
  ["/JavaScript"; "/JS"; "/Launch"; "/URI"; "eval("; "unescape("; "fromCharCode("].

Definition basicMalwareCheck (buffer : string) : bool :=
  let content := slice 0 (Nat.min (String.length buffer) (Z.to_nat 10000)) buffer in
  existsb (fun pattern => includes pattern content) suspiciousPatterns.

Definition push_if (c : bool) (x : string) (l : list string) : list string :=
  if c then (l ++ [x])%list else l.

Definition validateFile (w : World) (generationMode : bool) (filePath : string) : SafetyResult :=
  if negb (existsSync w filePath) then
    {| isSafe := false; issues := ["File does not exist"]; hash := EmptyString; fileSize := 0 |}
  else
    let ext := to_lower_case (extname w filePath) in
    let issues1 :=
      push_if (negb (existsb (String.eqb ext) (allowedExtensions generationMode)))
        ("Unsupported file extension: " ++ ext) [] in
    let failed (issues : list string) (message : string) :=
      {| isSafe := false; issues := (issues ++ ["Validation error: " +:+ message])%list;
         hash := EmptyString; fileSize := 0 |} in
    match statSync_size w filePath with
    | Throw m => failed issues1 m
    | Ok size =>
        let issues2 :=
          push_if (maxFileSize <? size)
            ("File too large: " ++ Z_to_string size ++ " bytes (max: " ++ Z_to_string maxFileSize ++ ")")
            issues1 in
        match readFileSync w filePath with
        | Throw m => failed issues2 m
        | Ok fileBuffer =>
            let issues3 :=
              push_if (negb generationMode && negb (validatePdfHeader fileBuffer))
                "Invalid PDF file format" issues2 in
            let issues4 :=
              push_if (basicMalwareCheck fileBuffer) "Potential security risk detected" issues3 in
            {| isSafe := (List.length issues4 =? 0)%nat; issues := issues4;
               hash := sha256_hex w fileBuffer; fileSize := size |}
        end
    end.

End SafetyManager.

(** ** [PdfParser] ([src/pdf-parser.ts]) *)

Module PdfParser.

Record Config := {
  c_extractMetadata : bool;
  c_extractImages : bool;
  c_includePageInfo : bool;
  c_outputFormat : string;
  c_safetyChecks : bool;
  c_maxPages : option number;
  c_password : option string
}.

(** The constructor: the defaults, overridden by the keys of [config]. *)
Definition constructor (config : PdfConfig) : Config :=
  {| c_extractMetadata := default true (extractMetadata config);
     c_extractImages := default false (extractImages config);
     c_includePageInfo := default false (includePageInfo config);
     c_outputFormat := default "text" (outputFormat config);
     c_safetyChecks := default true (safetyChecks config);
     c_maxPages := maxPages config;
     c_password := password config |}.

Definition empty_config : PdfConfig :=
  {| extractMetadata := None; extractImages := None; includePageInfo := None;
     outputFormat := None; safetyChecks := None; maxPages := None; password := None |}.

Definition nonempty (s : option string) : option string :=
  match s with
  | Some EmptyString => None
  | _ => s
  end.

Definition parseDate (w : World) (dateString : string) : option MetadataDate :=
  if starts_with "D:" dateString then
    let cleanDate := slice 2 16 dateString in
    let year := parseInt (slice 0 4 cleanDate) in
    let month := (fun m => m - 1) <$> parseInt (slice 4 6 cleanDate) in
    let day := parseInt (slice 6 8 cleanDate) in
    let or0 (v : option Z) := Some (default 0 v) in
    Some (DateOfFields year month day
            (or0 (parseInt (slice 8 10 cleanDate)))
            (or0 (parseInt (slice 10 12 cleanDate)))
            (or0 (parseInt (slice 12 14 cleanDate))))
  else DateOfString <$> Date_parse w dateString.

Definition extractMetadata_of (w : World) (i : InfoDict) : PdfMetadata :=
  {| title := nonempty (Title i);
     author := nonempty (Author i);
     subject := nonempty (Subject i);
     creator := nonempty (Creator i);
     producer := nonempty (Producer i);
     keywords := nonempty (Keywords i);
     creationDate := parseDate w <$> nonempty (CreationDate i);
     modificationDate := parseDate w <$> nonempty (ModDate i) |}.

Definition splitTextIntoPages (text : string) (pageCount : Z) : list string :=
  if pageCount =? 1 then [text]
  else
    let formFeedPages := split form_feed text in
    if Z.of_nat (List.length formFeedPages) =? pageCount then formFeedPages
    else
      let len := Z.of_nat (String.length text) in
      let avgLength := (len + pageCount - 1) / pageCount in
      map (fun i : nat =>
             let start := Z.of_nat i * avgLength in
             let stop := Z.min ((Z.of_nat i + 1) * avgLength) len in
             slice (Z.to_nat start) (Z.to_nat stop) text)
          (seq 0 (Z.to_nat pageCount)).

Definition extractPageInfo (pdfData : PdfParseOutput) : list PageInfo :=
  imap (fun i c => {| pageNumber := Z.of_nat i + 1; content := c |})
       (splitTextIntoPages (pp_text pdfData) (numpages pdfData)).

Definition parseFile (w : World) (config : Config) (filePath : string) : ProcessingResult :=
  let failed (errs : list string) :=
    {| success := false; data := None; result_metadata := None; warnings := [];
       errors := errs; processingTime := None |} in
  let safetyResult :=
    if c_safetyChecks config then Some (SafetyManager.validateFile w false filePath) else None in
  match safetyResult with
  | Some {| isSafe := false; issues := iss |} => failed iss
  | _ =>
      let options :=
        {| opt_password := nonempty (c_password config);
           opt_max := match c_maxPages config with
                      | Some n => if truthy n then Some n else None
                      | None => None
                      end |} in
      match bind (readFileSync w filePath) (fun pdfBuffer => pdfParse w pdfBuffer options) with
      | Throw m => failed ["Parsing failed: " ++ m]
      | Ok pdfData =>
          let md :=
            if c_extractMetadata config then extractMetadata_of w <$> info pdfData else None in
          let parsedData :=
            {| text := pp_text pdfData;
               pages := if c_includePageInfo config then Some (extractPageInfo pdfData) else None;
               metadata := md;
               totalPages := numpages pdfData |} in
          {| success := true; data := Some parsedData; result_metadata := md; warnings := [];
             errors := []; processingTime := Some (elapsed w filePath) |}
      end
  end.

(** The body of the [for (let i = start; i <= bound; i++)] loop of
    [parsePageRange], run over the values [i] takes. *)
Definition push_range (first bound : Z) (pages : list Z) : list Z :=
  fold_left (fun acc i => if includes_Z i acc then acc else (acc ++ [i])%list)
            (map (fun k : nat => first + Z.of_nat k) (seq 0 (Z.to_nat (bound - first + 1))))
            pages.

Definition parsePart (totalPages : Z) (pages : list Z) (part : string) : list Z :=
  if includes "-" part then
    let bounds := map (fun n => parseInt (trim n)) (split "-" part) in
    match bounds with
    | Some first :: Some last :: _ => push_range first (Z.min last totalPages) pages
    | _ => pages
    end
  else
    match parseInt (trim part) with
    | Some pageNum =>
        if (1 <=? pageNum) && (pageNum <=? totalPages) && negb (includes_Z pageNum pages)
        then (pages ++ [pageNum])%list else pages
    | None => pages
    end.

Definition parsePageRange (range : string) (totalPages : Z) : list Z :=
  sort_numeric (fold_left (parsePart totalPages) (split "," range) []).

Definition extractPages (w : World) (config : Config) (filePath pageRange : string) : Result string :=
  let result := parseFile w config filePath in
  match success result, data result with
  | true, Some d =>
      match pages d with
      | None => Ok (text d)
      | Some ps =>
          let nums := parsePageRange pageRange (totalPages d) in
          let selectedPages :=
            omap (fun pageNum => find (fun p => pageNumber p =? pageNum) ps) nums in
          Ok (join (nl ++ nl) (map content selectedPages))
      end
  | _, _ => Throw "Failed to parse PDF"
  end.

Definition double_quote : ascii := ascii_of_nat 34.

Definition escapeHtml (text : string) : string :=
  replace_char "'" "&#39;"
    (replace_char double_quote "&quot;"
       (replace_char ">" "&gt;"
          (replace_char "<" "&lt;"
             (replace_char "&" "&amp;" text)))).

End PdfParser.

(** ** [PDFModifier] (second half of [src/safety-manager.ts]) *)

Module PDFModifier.

(** *** pdf-lib operations *)

Definition set_content (f : PDFField) (c : FieldContent) : PDFField :=
  {| getName := getName f; constructor_name := constructor_name f;
     getMaxLength := getMaxLength f; getOptions := getOptions f; field_content := c |}.

(** [setText] refuses a text longer than the field's maximum length. *)
Definition setText (f : PDFField) (t : string) : Result PDFField :=
  match getMaxLength f with
  | Some m =>
      if (m <? String.length t)%nat then Throw "text exceeds the maximum length of the field"
      else Ok (set_content f (TextContent t))
  | None => Ok (set_content f (TextContent t))
  end.

(** [select] refuses a value that is not one of the group's options. *)
Definition select (f : PDFField) (o : string) : Result PDFField :=
  if existsb (String.eqb o) (getOptions f) then Ok (set_content f (Selected o))
  else Throw "option is not one of the options of the field".

Definition in_unit_interval (n : option number) : option number :=
  match n with
  | Some (Num q) => if Qle_bool 0 q && Qle_bool q 1 then Some (Num q) else None
  | _ => None
  end.

(** [rgb(color[0], color[1], color[2])]: each component must lie in [0, 1]. *)
Definition rgb (color : list number) : Result (number * number * number) :=
  match in_unit_interval (color !! 0%nat), in_unit_interval (color !! 1%nat),
        in_unit_interval (color !! 2%nat) with
  | Some r, Some g, Some b => Ok (r, g, b)
  | _, _, _ => Throw "color component must be a number between 0 and 1"
  end.

Definition with_pages (d : PDFDocument) (ps : list (list DrawOp)) : PDFDocument :=
  {| getPages := ps; getFields := getFields d; embedded := embedded d |}.

Definition with_fields (d : PDFDocument) (fs : list PDFField) : PDFDocument :=
  {| getPages := getPages d; getFields := fs; embedded := embedded d |}.

Definition embed (d : PDFDocument) (i : PDFImage) : PDFDocument :=
  {| getPages := getPages d; getFields := getFields d; embedded := (embedded d ++ [i])%list |}.

(** [pages[i].drawX(...)]: a [TypeError] when [pages[i]] is [undefined]. *)
Definition draw (d : PDFDocument) (i : nat) (op : DrawOp) : Result PDFDocument :=
  match getPages d !! i with
  | Some _ => Ok (with_pages d (alter (fun p => (p ++ [op])%list) i (getPages d)))
  | None => Throw "Cannot read properties of undefined"
  end.

Definition drawText (w : World) (d : PDFDocument) (i : nat) (t : string)
    (position : list number) (size : number) (color : list number) : Result PDFDocument :=
  match getPages d !! i with
  | None => Throw "Cannot read properties of undefined"
  | Some _ =>
      bind (rgb color) (fun c =>
      bind (encodable w t) (fun _ =>
      draw d i (DrawText t (position !! 0%nat) (position !! 1%nat) size c)))
  end.

Definition embedImage (w : World) (fmt : ImageFormat) (d : PDFDocument) (bytes : string)
    : Result (PDFDocument * PDFImage) :=
  let img := {| image_format := fmt; image_bytes := bytes |} in
  bind (match fmt with Png => embedPng_ok w bytes | Jpg => embedJpg_ok w bytes end)
       (fun _ => Ok (embed d img, img)).

(** *** The class *)

Definition to_String (w : World) (v : FieldValue) : string :=
  match v with
  | VString s => s
  | VNumber n => Number_toString w n
  | VBoolean true => "true"
  | VBoolean false => "false"
  end.

Definition value_truthy (v : FieldValue) : bool :=
  match v with
  | VString s => negb (String.eqb s EmptyString)
  | VNumber n => truthy n
  | VBoolean b => b
  end.

Definition truthy_string (s : option string) : option string :=
  match s with
  | Some EmptyString => None
  | _ => s
  end.

(** One step of a loop whose body is a [try] block: the document after the
    step and whether the step incremented the count. *)
Definition run_edits {A} (step : PDFDocument -> A -> PDFDocument * bool)
    (items : list A) (d : PDFDocument) : PDFDocument * nat :=
  fold_left (fun st item =>
               let '(d', counted) := step (fst st) item in
               (d', if counted then S (snd st) else snd st))
            items (d, O).

(** The field found by [fields.find(f => f.getName() === name)], updated in
    place by the branch for its class.  [Ok None]: no field of that name, or
    a field of a class the method does not handle. *)
Fixpoint fill_field (w : World) (fields : list PDFField) (formItem : FormFillData)
    : Result (option (list PDFField)) :=
  match fields with
  | [] => Ok None
  | f :: rest =>
      if String.eqb (getName f) (fieldName formItem) then
        let updated (r : Result PDFField) :=
          bind r (fun f' => Ok (Some (f' :: rest))) in
        match constructor_name f with
        | PDFTextField => updated (setText f (to_String w (fieldValue formItem)))
        | PDFCheckBox => updated (Ok (set_content f (Checked (value_truthy (fieldValue formItem)))))
        | PDFRadioGroup => updated (select f (to_String w (fieldValue formItem)))
        | PDFOtherField => Ok None
        end
      else
        bind (fill_field w rest formItem) (fun o => Ok (cons f <$> o))
  end.

Definition fill_step (w : World) (d : PDFDocument) (formItem : FormFillData) : PDFDocument * bool :=
  match fill_field w (getFields d) formItem with
  | Ok (Some fs) => (with_fields d fs, true)
  | Ok None => (d, false)
  | Throw _ => (d, false)
  end.

Definition fillForms (w : World) (pdfDoc : PDFDocument) (formData : list FormFillData)
    : PDFDocument * nat :=
  run_edits (fill_step w) formData pdfDoc.

(** The image branch of [addSignatures]: read, embed, draw on the first
    page.  An embedded image stays in the document when drawing fails. *)
Definition signature_image (w : World) (fmt : ImageFormat) (d : PDFDocument)
    (path : string) (position : list number) : PDFDocument * bool :=
  match bind (readFileSync w path) (embedImage w fmt d) with
  | Throw _ => (d, false)
  | Ok (d1, image) =>
      match draw d1 0 (DrawImage image position) with
      | Ok d2 => (d2, true)
      | Throw _ => (d1, false)
      end
  end.

Definition signature_step (w : World) (d : PDFDocument) (signature : SignatureOptions)
    : PDFDocument * bool :=
  match truthy_string (sig_imagePath signature) with
  | Some path =>
      let lower := to_lower_case path in
      if ends_with ".png" lower then signature_image w Png d path (sig_position signature)
      else if ends_with ".jpg" lower || ends_with ".jpeg" lower
           then signature_image w Jpg d path (sig_position signature)
           else (d, false)
  | None =>
      match truthy_string (sig_text signature) with
      | Some t =>
          let fontSize := or_default (sig_fontSize signature) (of_Z 12) in
          let color := default [of_Z 0; of_Z 0; of_Z 0] (sig_color signature) in
          match drawText w d 0 t (sig_position signature) fontSize color with
          | Ok d' => (d', true)
          | Throw _ => (d, false)
          end
      | None => (d, false)
      end
  end.

Definition addSignatures (w : World) (pdfDoc : PDFDocument) (signatures : list SignatureOptions)
    : PDFDocument * nat :=
  run_edits (signature_step w) signatures pdfDoc.

(** [pages[pageNumber || 0]], as the index of an existing page. *)
Definition target_page (d : PDFDocument) (pageNumber : option number) : option nat :=
  match array_index (or_default pageNumber (of_Z 0)) with
  | Some i => if (i <? List.length (getPages d))%nat then Some i else None
  | None => None
  end.

Definition text_step (w : World) (d : PDFDocument) (textItem : TextInsertion) : PDFDocument * bool :=
  match target_page d (ti_pageNumber textItem) with
  | None => (d, false)
  | Some i =>
      let fontSize := or_default (ti_fontSize textItem) (of_Z 12) in
      let color := default [of_Z 0; of_Z 0; of_Z 0] (ti_color textItem) in
      match drawText w d i (ti_text textItem) (ti_position textItem) fontSize color with
      | Ok d' => (d', true)
      | Throw _ => (d, false)
      end
  end.

Definition insertText (w : World) (pdfDoc : PDFDocument) (items : list TextInsertion)
    : PDFDocument * nat :=
  run_edits (text_step w) items pdfDoc.

(** The format [insertImages] picks from the file name. *)
Definition image_format_of (path : string) : option ImageFormat :=
  let lower := to_lower_case path in
  if ends_with ".png" lower then Some Png
  else if ends_with ".jpg" lower || ends_with ".jpeg" lower then Some Jpg
  else None.

Definition image_step (w : World) (d : PDFDocument) (imageItem : ImageInsertion) : PDFDocument * bool :=
  match target_page d (im_pageNumber imageItem) with
  | None => (d, false)
  | Some i =>
      match readFileSync w (im_imagePath imageItem) with
      | Throw _ => (d, false)
      | Ok imageBytes =>
          match image_format_of (im_imagePath imageItem) with
          | None => (d, false)
          | Some fmt =>
              match bind (embedImage w fmt d imageBytes)
                         (fun '(d1, image) => draw d1 i (DrawImage image (im_position imageItem))) with
              | Ok d2 => (d2, true)
              | Throw _ => (d, false)
              end
          end
      end
  end.

Definition insertImages (w : World) (pdfDoc : PDFDocument) (items : list ImageInsertion)
    : PDFDocument * nat :=
  run_edits (image_step w) items pdfDoc.

Record ModifyOptions := {
  inputPath : string;
  o_outputPath : string;
  signatures : list SignatureOptions;
  formData : list FormFillData;
  o_textInsertions : list TextInsertion;
  o_imageInsertions : list ImageInsertion
}.

(** What a call leaves behind: the result object and, when the output file
    was written, the document that was saved in it. *)
Record Modified := {
  result : PDFModificationResult;
  written : option PDFDocument
}.

Definition when_nonempty {A} (items : list A) (run : PDFDocument -> list A -> PDFDocument * nat)
    (d : PDFDocument) : PDFDocument * nat :=
  if (0 <? List.length items)%nat then run d items else (d, O).

(** The four passes of [modifyWithPdfLib], in the order of the source. *)
Definition apply_edits (w : World) (o : ModifyOptions) (pdfDoc : PDFDocument)
    : PDFDocument * (nat * nat * nat * nat) :=
  let '(d1, formsFilled) := when_nonempty (formData o) (fillForms w) pdfDoc in
  let '(d2, signaturesAdded) := when_nonempty (signatures o) (addSignatures w) d1 in
  let '(d3, textInserted) := when_nonempty (o_textInsertions o) (insertText w) d2 in
  let '(d4, imagesInserted) := when_nonempty (o_imageInsertions o) (insertImages w) d3 in
  (d4, (formsFilled, signaturesAdded, textInserted, imagesInserted)).

Definition modifyWithPdfLib (w : World) (o : ModifyOptions) : Result Modified :=
  bind (readFileSync w (inputPath o)) (fun existingPdfBytes =>
  bind (PDFDocument_load w existingPdfBytes) (fun pdfDoc =>
    let '(d, (formsFilled, signaturesAdded, textInserted, imagesInserted)) :=
      apply_edits w o pdfDoc in
    match save_and_write w (o_outputPath o) d with
    | Throw m => Throw ("PDF modification failed: " +:+ error_to_string m)
    | Ok _ =>
        Ok {| result :=
                {| m_success := true;
                   modificationsApplied :=
                     (formsFilled + signaturesAdded + textInserted + imagesInserted)%nat;
                   signaturesAdded := signaturesAdded;
                   formsFilled := formsFilled;
                   textInsertions := textInserted;
                   imageInsertions := imagesInserted;
                   outputPath := o_outputPath o;
                   m_processingTime := elapsed w (inputPath o);
                   errorMessage := None |};
              written := Some d |}
    end)).

Definition failure (w : World) (o : ModifyOptions) (message : string) : Modified :=
  {| result :=
       {| m_success := false; modificationsApplied := 0; signaturesAdded := 0;
          formsFilled := 0; textInsertions := 0; imageInsertions := 0;
          outputPath := EmptyString; m_processingTime := elapsed w (inputPath o);
          errorMessage := Some message |};
     written := None |}.

Definition modifyPdf (w : World) (o : ModifyOptions) : Modified :=
  match modifyWithPdfLib w o with
  | Ok r => r
  | Throw message => failure w o message
  end.

(** *** Convenience methods *)




End PDFModifier.

(** ** The [modify] and [batch-modify] commands ([src/cli.ts]) *)

Module Cli.

Import PDFModifier.

(** [options.fillForm]: the default [[]], or the string of the flag. *)
Inductive FillFormOption : Type :=
| FillFormArray (l : list string)
| FillFormString (s : string).

Record Options := {
  pattern : string;
  addSignature : option string;
  signaturePosition : string;
  fillForm : FillFormOption;
  addText : option string;
  textPosition : string;
  textPage : string;
  fontSize : string;
  allPages : bool;
  config : option string;
  template : option string;
  previewOnly : bool;
  parallel : bool
}.

(** The defaults commander gives the options. *)
Definition default_options : Options :=
  {| pattern := "*.pdf"; addSignature := None; signaturePosition := "400,700,500,750";
     fillForm := FillFormArray []; addText := None; textPosition := "100,100";
     textPage := "0"; fontSize := "12"; allPages := false; config := None;
     template := None; previewOnly := false; parallel := false |}.

(** [coords.split(',').map(x => parseFloat(x.trim()))] *)
Definition positionParts (coords : string) : list number :=
  map (fun x => parseFloat (trim x)) (split "," coords).

Definition image_signature (position : list number) (path : string) : SignatureOptions :=
  {| sig_position := position; sig_imagePath := Some path; sig_text := None;
     sig_fontSize := None; sig_color := None |}.

Definition fillFormOptions (f : FillFormOption) : list string :=
  match f with
  | FillFormArray l => l
  | FillFormString s => if String.eqb s EmptyString then [] else [s]
  end.

Definition form_item (formItem : string) : option FormFillData :=
  if includes ":" formItem then
    match split ":" formItem with
    | name :: valueParts =>
        Some {| fieldName := trim name; fieldValue := VString (trim (join ":" valueParts));
                fieldType := None |}
    | [] => None
    end
  else None.

Definition cli_formData (o : Options) : list FormFillData :=
  omap form_item (fillFormOptions (fillForm o)).

Definition cli_text (o : Options) (position : list number) (t : string) : TextInsertion :=
  {| ti_text := t; ti_position := position;
     ti_pageNumber := Some (parseInt_number (textPage o));
     ti_fontSize := Some (parseInt_number (fontSize o));
     ti_color := None; ti_fontName := None |}.

(** *** [modify] *)

(** The signature list of [modify]: the position must have four parts. *)
Definition modify_signatures (o : Options) : Result (list SignatureOptions) :=
  match truthy_string (addSignature o) with
  | Some path =>
      let parts := positionParts (signaturePosition o) in
      if negb (List.length parts =? 4)%nat then Throw "Signature position must be x1,y1,x2,y2"
      else Ok [image_signature parts path]
  | None => Ok []
  end.

(** The text list of [modify]: the position must have two parts. *)
Definition modify_texts (o : Options) : Result (list TextInsertion) :=
  match truthy_string (addText o) with
  | Some t =>
      let parts := positionParts (textPosition o) in
      if negb (List.length parts =? 2)%nat then Throw "Text position must be x,y"
      else Ok [cli_text o parts t]
  | None => Ok []
  end.

(** How an action ends: the exit status of the process and the call of
    [modifyPdf] it made, if it made one. *)
Record ModifyRun := {
  exit_code : Z;
  call : option Modified
}.

Definition modify_action (w : World) (input output : string) (o : Options) : ModifyRun :=
  match bind (modify_signatures o) (fun sigs =>
        bind (modify_texts o) (fun texts => Ok (sigs, texts))) with
  | Throw _ => {| exit_code := 1; call := None |}
  | Ok (sigs, texts) =>
      let forms := cli_formData o in
      if (List.length sigs =? 0)%nat && (List.length forms =? 0)%nat && (List.length texts =? 0)%nat
      then {| exit_code := 0; call := None |}
      else
        let r := modifyPdf w {| inputPath := input; o_outputPath := output; signatures := sigs;
                                formData := forms; o_textInsertions := texts;
                                o_imageInsertions := [] |} in
        {| exit_code := if m_success (result r) then 0 else 1; call := Some r |}
  end.

(** *** [batch-modify] *)

Definition template_text (t : string) (x y size : Z) : TextInsertion :=
  {| ti_text := t; ti_position := [of_Z x; of_Z y]; ti_pageNumber := None;
     ti_fontSize := Some (of_Z size); ti_color := None; ti_fontName := None |}.

Definition iso_date (d : Date) : string := hd EmptyString (split "T" (toISOString d)).
Definition clock_time (d : Date) : string := hd EmptyString (split " " (toTimeString d)).

(** The table of templates.  Building it evaluates [new Date()] three times,
    whatever the name looked up. *)
Definition templates (w : World) : list (string * Modifications) :=
  let d0 := new_Date w 0 in
  let d1 := new_Date w 1 in
  let d2 := new_Date w 2 in
  [ ("approval-stamp",
     {[ "textInsertions" :=
          JTextInsertions [template_text "APPROVED" 450 50 16;
                           template_text ("Date: " +:+ iso_date d0) 450 30 10] ]});
    ("confidential-watermark",
     <[ "textInsertions" := JTextInsertions [template_text "CONFIDENTIAL" 200 400 48] ]>
       {[ "allPages" := JBool true ]});
    ("signature-bottom-right",
     {[ "signatures" :=
          JSignatures [ {| sig_position := [of_Z 400; of_Z 50; of_Z 500; of_Z 100];
                           sig_imagePath := None; sig_text := Some "Authorized Signature";
                           sig_fontSize := None; sig_color := None |} ] ]});
    ("review-stamp",
     {[ "textInsertions" :=
          JTextInsertions [template_text "REVIEWED" 50 50 12;
                           template_text ("Agent 2 - " +:+ iso_date d1 +:+ " " +:+ clock_time d2)
                                         50 30 8] ]}) ].

Definition loadModificationTemplate (w : World) (templateName : string) : option Modifications :=
  snd <$> find (fun e => String.eqb (fst e) templateName) (templates w).

Definition get_signatures (m : Modifications) : list SignatureOptions :=
  match m !! "signatures" with
  | Some (JSignatures l) => l
  | _ => []
  end.

Definition get_formData (m : Modifications) : list FormFillData :=
  match m !! "formData" with
  | Some (JFormData l) => l
  | _ => []
  end.

Definition get_textInsertions (m : Modifications) : list TextInsertion :=
  match m !! "textInsertions" with
  | Some (JTextInsertions l) => l
  | _ => []
  end.

(** The object built from the flags.  No position is checked here. *)
Definition cli_modifications (o : Options) : Modifications :=
  let sigs :=
    match truthy_string (addSignature o) with
    | Some path => [image_signature (positionParts (signaturePosition o)) path]
    | None => []
    end in
  let texts :=
    match truthy_string (addText o) with
    | Some t => [cli_text o (positionParts (textPosition o)) t]
    | None => []
    end in
  <[ "signatures" := JSignatures sigs ]>
    (<[ "formData" := JFormData (cli_formData o) ]>
       (<[ "textInsertions" := JTextInsertions texts ]>
          {[ "allPages" := JBool (allPages o) ]})).

(** [{ ...modifications, ...templateConfig }]: the keys of the template win. *)
Definition spread (modifications templateConfig : Modifications) : Modifications :=
  templateConfig ∪ modifications.

(** "Load configuration or template", then "Build modifications from CLI
    args if no config/template". *)
Definition build_modifications (w : World) (o : Options) : Result Modifications :=
  bind (match truthy_string (config o) with
        | Some path => read_json_config w path
        | None => Ok ∅
        end) (fun loaded =>
  let modifications :=
    match truthy_string (template o) with
    | Some name =>
        match loadModificationTemplate w name with
        | Some templateConfig => spread loaded templateConfig
        | None => loaded
        end
    | None => loaded
    end in
  Ok (if (size modifications =? 0)%nat then cli_modifications o else modifications)).

(** The number of edits of a request, all kinds together. *)
Definition edit_count (m : Modifications) : nat :=
  (List.length (get_signatures m) + List.length (get_formData m)
   + List.length (get_textInsertions m))%nat.

(** The text insertions [applyModificationsAllPages] builds: for each page,
    one object per base insertion, with the four properties it copies. *)
Definition allTextInsertions (pageCount : nat) (baseTextInsertions : list TextInsertion)
    : list TextInsertion :=
  flat_map (fun pageNum : nat =>
              map (fun textItem =>
                     {| ti_text := ti_text textItem;
                        ti_position := ti_position textItem;
                        ti_pageNumber := Some (of_Z (Z.of_nat pageNum));
                        ti_fontSize := ti_fontSize textItem;
                        ti_color := None; ti_fontName := None |})
                  baseTextInsertions)
           (seq 0 pageCount).

Definition applyModificationsAllPages (w : World) (input output : string) (m : Modifications)
    : Result Modified :=
  bind (readFileSync w input) (fun existingPdfBytes =>
  bind (PDFDocument_load w existingPdfBytes) (fun pdfDoc =>
    let pageCount := List.length (getPages pdfDoc) in
    Ok (modifyPdf w {| inputPath := input; o_outputPath := output;
                       signatures := get_signatures m; formData := get_formData m;
                       o_textInsertions := allTextInsertions pageCount (get_textInsertions m);
                       o_imageInsertions := [] |}))).

Inductive Status : Type := success_status | failed_status.

Record ResultRow := {
  row_file : string;
  status : Status;
  row_modifications : option nat;
  row_time : option Z;
  row_error : option string
}.

Definition failed_row (name : string) (message : option string) : ResultRow :=
  {| row_file := name; status := failed_status; row_modifications := None;
     row_time := None; row_error := message |}.

(** What the loop records for a file: the [if (result.success)] of the [try]
    block, and the [catch]. *)
Definition result_row (w : World) (file : string) (attempt : Result Modified) : ResultRow :=
  match attempt with
  | Ok r =>
      if m_success (result r) then
        {| row_file := basename w file; status := success_status;
           row_modifications := Some (modificationsApplied (result r));
           row_time := Some (m_processingTime (result r)); row_error := None |}
      else failed_row (basename w file) (errorMessage (result r))
  | Throw message => failed_row (basename w file) (Some message)
  end.

(** The body of the loop over the files, the same in both branches. *)
Definition process_file (w : World) (o : Options) (outputDir : string) (m : Modifications)
    (file : string) : ResultRow :=
  let outputFile := path_join w outputDir (basename w file) in
  result_row w file
    (if allPages o && (0 <? List.length (get_textInsertions m))%nat
     then applyModificationsAllPages w file outputFile m
     else Ok (modifyPdf w {| inputPath := file; o_outputPath := outputFile;
                             signatures := get_signatures m; formData := get_formData m;
                             o_textInsertions := get_textInsertions m;
                             o_imageInsertions := [] |})).

(** [await Promise.all(promises)]: promise [i] settles with [values !! i];
    [completion] lists the promises in the order they settle.  The array of
    results is indexed like the array of promises, and exists once every
    promise has settled. *)
Definition settle {A} (values : list A) (slots : list (option A)) (i : nat)
    : list (option A) :=
  <[ i := values !! i ]> slots.

Definition promise_all {A} (values : list A) (completion : list nat) : option (list A) :=
  mapM id (fold_left (settle values) completion (replicate (List.length values) None)).




(** How the action ends.  [Pending]: some promise never settles. *)
Inductive BatchRun : Type :=
| Finished (exit_code : Z) (results : list ResultRow)
| Pending.

Definition discovered_files (w : World) (inputDir : string) (o : Options) : list string :=
  filter (fun file => ends_with ".pdf" (to_lower_case file) = true)
         (glob_sync w (path_join w inputDir (pattern o))).

Definition batch_modify_action (w : World) (completion : list nat)
    (inputDir outputDir : string) (o : Options) : BatchRun :=
  match (if existsSync w outputDir then Ok tt else mkdirSync w outputDir) with
  | Throw _ => Finished 1 []
  | Ok _ =>
      let files := discovered_files w inputDir o in
      if (List.length files =? 0)%nat then Finished 0 []
      else
        match build_modifications w o with
        | Throw _ => Finished 1 []
        | Ok modifications =>
            if previewOnly o then Finished 0 []
            else if parallel o && (1 <? List.length files)%nat then
              match promise_all (map (process_file w o outputDir modifications) files)
                                completion with
              | Some results => Finished 0 results
              | None => Pending
              end
            else Finished 0 (map (process_file w o outputDir modifications) files)
        end
  end.

End Cli.

(** ** The choice of a PDF engine ([pdf-generator.ts])

    [which engine] tells whether the command [which <engine>] succeeds.  The
    state is the cache of the generator, and the list of the engines looked
    up with [which] so far. *)

Module PdfGenerator.

Record State := {
  engineCache : gmap string bool;
  looked_up : list string
}.

(** The properties an object literal inherits: [engine in this.engineCache]
    holds for them whatever the cache contains. *)
Definition inherited_keys : list string :=
  ["constructor"; "hasOwnProperty"; "isPrototypeOf"; "propertyIsEnumerable";
   "toLocaleString"; "toString"; "valueOf"; "__proto__"; "__defineGetter__";
   "__defineSetter__"; "__lookupGetter__"; "__lookupSetter__"].

(** The truth value of what [isEngineAvailable] returns: for an inherited
    key it returns the inherited property, a function or an object. *)
Definition isEngineAvailable (which : string -> bool) (engine : string) (s : State)
    : bool * State :=
  match engineCache s !! engine with
  | Some available => (available, s)
  | None =>
      if bool_decide (engine ∈ inherited_keys) then (true, s)
      else (which engine,
            {| engineCache := <[ engine := which engine ]> (engineCache s);
               looked_up := (looked_up s ++ [engine])%list |})
  end.

(** [for (const engine of engines) if (await this.isEngineAvailable(engine)) return engine] *)
Fixpoint first_available (which : string -> bool) (engines : list string) (s : State)
    : option string * State :=
  match engines with
  | [] => (None, s)
  | engine :: rest =>
      let '(available, s') := isEngineAvailable which engine s in
      if available then (Some engine, s') else first_available which rest s'
  end.

(** The [engines] of [templateConfigs]. *)
Definition templateConfigs : list (string * list string) :=
  [ ("eisvogel", ["xelatex"; "lualatex"; "pdflatex"]);
    ("typst-modern", ["typst"]);
    ("academic", ["xelatex"; "pdflatex"]);
    ("corporate", ["xelatex"; "lualatex"]);
    ("technical", ["xelatex"; "lualatex"]) ].

(** [getTemplateInfo(template).engines || ['xelatex', 'pdflatex', 'typst']] *)
Definition preferredEngines (template : string) : list string :=
  default ["xelatex"; "pdflatex"; "typst"]
          (snd <$> find (fun e => String.eqb (fst e) template) templateConfigs).

Definition fallbackEngines : list string := ["xelatex"; "pdflatex"; "lualatex"; "typst"].

Definition selectEngine (which : string -> bool) (engine template : string) (s : State)
    : option string * State :=
  let '(requested, s1) :=
    if negb (String.eqb engine "auto") then isEngineAvailable which engine s
    else (false, s) in
  if requested then (Some engine, s1)
  else
    match first_available which (preferredEngines template) s1 with
    | (Some chosen, s2) => (Some chosen, s2)
    | (None, s2) => first_available which fallbackEngines s2
    end.

End PdfGenerator.

(** ** A sample environment

    A directory [in] with three PDF files, the second of which pdf-lib cannot
    parse, and an existing output directory [out]. *)

Module Sample.

Definition good_bytes : string := "%PDF-1.4 two pages".
Definition long_bytes : string := "%PDF-1.4 four pages".
Definition corrupt_bytes : string := "%PDF-1.4 truncated".

Definition name_field : PDFField :=
  {| getName := "name"; constructor_name := PDFTextField; getMaxLength := Some 10%nat;
     getOptions := []; field_content := Unset |}.

Definition agree_field : PDFField :=
  {| getName := "agree"; constructor_name := PDFCheckBox; getMaxLength := None;
     getOptions := []; field_content := Unset |}.

Definition blank (pageCount : nat) : PDFDocument :=
  {| getPages := replicate pageCount []; getFields := [name_field; agree_field]; embedded := [] |}.

Definition last_part (sep : ascii) (s : string) : string := List.last (split sep s) EmptyString.

Definition files : list (string * string) :=
  [("in/a.pdf", good_bytes); ("in/b.pdf", corrupt_bytes); ("in/c.pdf", long_bytes);
   ("logo.png", "PNG")].

Definition lookup_file (path : string) : option string :=
  snd <$> find (fun e => String.eqb (fst e) path) files.

Definition clock : list Date :=
  [ {| toISOString := "2024-03-01T10:15:30.000Z"; toTimeString := "11:15:30 GMT+0100" |};
    {| toISOString := "2024-03-01T10:15:30.001Z"; toTimeString := "11:15:30 GMT+0100" |};
    {| toISOString := "2024-03-01T10:15:30.001Z"; toTimeString := "11:15:30 GMT+0100" |} ].

Definition world : World :=
  {| existsSync := fun p => bool_decide (is_Some (lookup_file p)) || String.eqb p "out";
     statSync_size := fun p =>
       match lookup_file p with
       | Some c => Ok (Z.of_nat (String.length c))
       | None => Throw "ENOENT: no such file or directory"
       end;
     readFileSync := fun p =>
       match lookup_file p with
       | Some c => Ok c
       | None => Throw "ENOENT: no such file or directory"
       end;
     mkdirSync := fun _ => Ok tt;
     extname := fun p => "." +:+ last_part "." p;
     basename := last_part "/";
     path_join := fun a b => a +:+ "/" +:+ b;
     glob_sync := fun p =>
       if String.eqb p "in/*.pdf" then ["in/a.pdf"; "in/b.pdf"; "in/c.pdf"] else [];
     sha256_hex := fun _ => EmptyString;
     Date_parse := fun _ => None;
     new_Date := fun n => default {| toISOString := "2024-03-02T00:00:00.000Z";
                                     toTimeString := "01:00:00 GMT+0100" |} (clock !! n);
     elapsed := fun _ => 5;
     Number_toString := fun _ => "0";
     pdfParse := fun bytes _ =>
       if String.eqb bytes good_bytes
       then Ok {| pp_text := "first page second page"; numpages := 2; info := None |}
       else Throw "Invalid PDF structure";
     read_json_config := fun _ => Throw "Unexpected end of JSON input";
     PDFDocument_load := fun bytes =>
       if String.eqb bytes good_bytes then Ok (blank 2)
       else if String.eqb bytes long_bytes then Ok (blank 4)
       else Throw "Failed to parse PDF document";
     embedPng_ok := fun _ => Ok tt;
     embedJpg_ok := fun _ => Ok tt;
     encodable := fun _ => Ok tt;
     save_and_write := fun _ _ => Ok tt |}.

(** The same environment with a read-only output directory. *)
Definition read_only_world : World :=
  {| existsSync := existsSync world; statSync_size := statSync_size world;
     readFileSync := readFileSync world; mkdirSync := mkdirSync world;
     extname := extname world; basename := basename world; path_join := path_join world;
     glob_sync := glob_sync world; sha256_hex := sha256_hex world;
     Date_parse := Date_parse world; new_Date := new_Date world; elapsed := elapsed world;
     Number_toString := Number_toString world; pdfParse := pdfParse world;
     read_json_config := read_json_config world; PDFDocument_load := PDFDocument_load world;
     embedPng_ok := embedPng_ok world; embedJpg_ok := embedJpg_ok world;
     encodable := encodable world;
     save_and_write := fun _ _ => Throw "EACCES: permission denied" |}.

Definition red_draft : TextInsertion :=
  {| ti_text := "DRAFT"; ti_position := [of_Z 100; of_Z 100]; ti_pageNumber := None;
     ti_fontSize := Some (of_Z 12); ti_color := Some [of_Z 1; of_Z 0; of_Z 0];
     ti_fontName := None |}.

Definition absent_field_item : FormFillData :=
  {| fieldName := "surname"; fieldValue := VString "Doe"; fieldType := None |}.


Definition text_on (page : Z) : TextInsertion :=
  {| ti_text := "APPROVED"; ti_position := [of_Z 450; of_Z 50]; ti_pageNumber := Some (of_Z page);
     ti_fontSize := None; ti_color := None; ti_fontName := None |}.


Definition request (forms : list FormFillData) (texts : list TextInsertion)
    (images : list ImageInsertion) : PDFModifier.ModifyOptions :=
  {| PDFModifier.inputPath := "in/a.pdf"; PDFModifier.o_outputPath := "out/a.pdf";
     PDFModifier.signatures := []; PDFModifier.formData := forms;
     PDFModifier.o_textInsertions := texts; PDFModifier.o_imageInsertions := images |}.

End Sample.

(** ** Vocabulary of the specification *)

Section Vocabulary.

Import PdfParser PDFModifier Cli.

(** A list of page numbers in strictly ascending order. *)
Fixpoint strictly_ascending (l : list Z) : bool :=
  match l with
  | x :: (y :: _) as r => (x <? y) && strictly_ascending r
  | _ => true
  end.

(** Every page number lies in [[1, totalPages]]. *)
Definition within_document (totalPages : Z) (l : list Z) : Prop :=
  Forall (fun p => 1 <= p <= totalPages) l.

(** What the accumulator of [parsePageRange] satisfies throughout. *)
Definition pages_invariant (totalPages : Z) (pages : list Z) : Prop :=
  NoDup pages /\ Forall (fun p => p <= totalPages) pages.

(** The source cannot be read or parsed. *)
Definition cannot_open (w : World) (o : PDFModifier.ModifyOptions) : Prop :=
  exists message,
    bind (readFileSync w (PDFModifier.inputPath o)) (PDFDocument_load w) = Throw message.

(** The source opens, but saving the edited document fails. *)
Definition cannot_persist (w : World) (o : PDFModifier.ModifyOptions) : Prop :=
  exists bytes pdfDoc message,
    readFileSync w (PDFModifier.inputPath o) = Ok bytes /\
    PDFDocument_load w bytes = Ok pdfDoc /\
    save_and_write w (PDFModifier.o_outputPath o) (fst (PDFModifier.apply_edits w o pdfDoc))
      = Throw message.



(** The string splits at commas into exactly four numeric tokens. *)
Definition four_numeric_tokens (coords : string) : Prop :=
  List.length (split "," coords) = 4%nat /\
  Forall (fun token => parseFloat (trim token) <> NaN) (split "," coords).

(** The argument of the [modifyPdf] call [applyModificationsAllPages] makes. *)
Definition all_pages_request (w : World) (input output : string) (m : Modifications)
    : Result ModifyOptions :=
  bind (readFileSync w input) (fun existingPdfBytes =>
  bind (PDFDocument_load w existingPdfBytes) (fun pdfDoc =>
    Ok {| inputPath := input; o_outputPath := output;
          signatures := get_signatures m; formData := get_formData m;
          o_textInsertions :=
            allTextInsertions (List.length (getPages pdfDoc)) (get_textInsertions m);
          o_imageInsertions := [] |})).

(** The edits one file of a batch is processed against: the argument of the
    [modifyPdf] call made for it, when the call is reached. *)
Definition file_request (w : World) (o : Options) (outputDir : string) (m : Modifications)
    (file : string) : Result ModifyOptions :=
  let outputFile := path_join w outputDir (basename w file) in
  if allPages o && (0 <? List.length (get_textInsertions m))%nat
  then all_pages_request w file outputFile m
  else Ok {| inputPath := file; o_outputPath := outputFile;
             signatures := get_signatures m; formData := get_formData m;
             o_textInsertions := get_textInsertions m; o_imageInsertions := [] |}.

(** *** Command lines and edits used as examples *)

Definition with_parallel (b : bool) (o : Cli.Options) : Cli.Options :=
  {| Cli.pattern := Cli.pattern o; Cli.addSignature := Cli.addSignature o;
     Cli.signaturePosition := Cli.signaturePosition o; Cli.fillForm := Cli.fillForm o;
     Cli.addText := Cli.addText o; Cli.textPosition := Cli.textPosition o;
     Cli.textPage := Cli.textPage o; Cli.fontSize := Cli.fontSize o;
     Cli.allPages := Cli.allPages o; Cli.config := Cli.config o;
     Cli.template := Cli.template o; Cli.previewOnly := Cli.previewOnly o;
     Cli.parallel := b |}.

Definition with_add_text (t : string) (o : Cli.Options) : Cli.Options :=
  {| Cli.pattern := Cli.pattern o; Cli.addSignature := Cli.addSignature o;
     Cli.signaturePosition := Cli.signaturePosition o; Cli.fillForm := Cli.fillForm o;
     Cli.addText := Some t; Cli.textPosition := Cli.textPosition o;
     Cli.textPage := Cli.textPage o; Cli.fontSize := Cli.fontSize o;
     Cli.allPages := Cli.allPages o; Cli.config := Cli.config o;
     Cli.template := Cli.template o; Cli.previewOnly := Cli.previewOnly o;
     Cli.parallel := Cli.parallel o |}.

Definition with_signature (path coords : string) (o : Cli.Options) : Cli.Options :=
  {| Cli.pattern := Cli.pattern o; Cli.addSignature := Some path;
     Cli.signaturePosition := coords; Cli.fillForm := Cli.fillForm o;
     Cli.addText := Cli.addText o; Cli.textPosition := Cli.textPosition o;
     Cli.textPage := Cli.textPage o; Cli.fontSize := Cli.fontSize o;
     Cli.allPages := Cli.allPages o; Cli.config := Cli.config o;
     Cli.template := Cli.template o; Cli.previewOnly := Cli.previewOnly o;
     Cli.parallel := Cli.parallel o |}.

Definition approval_run : Options :=
  {| pattern := "*.pdf"; addSignature := None; signaturePosition := "400,700,500,750";
     fillForm := FillFormArray []; addText := None; textPosition := "100,100";
     textPage := "0"; fontSize := "12"; allPages := false; config := None;
     template := Some "approval-stamp"; previewOnly := false; parallel := false |}.

Definition approval_stamp (date : string) : Modifications :=
  {[ "textInsertions" :=
       JTextInsertions [template_text "APPROVED" 450 50 16;
                        template_text ("Date: " +:+ date) 450 30 10] ]}.

Definition watermark_run : Options :=
  {| pattern := "*.pdf"; addSignature := None; signaturePosition := "400,700,500,750";
     fillForm := FillFormArray []; addText := None; textPosition := "100,100";
     textPage := "0"; fontSize := "12"; allPages := false; config := None;
     template := Some "confidential-watermark"; previewOnly := false; parallel := false |}.

Definition black_draft (page : Z) : TextInsertion :=
  {| ti_text := "DRAFT"; ti_position := [of_Z 100; of_Z 100];
     ti_pageNumber := Some (of_Z page); ti_fontSize := Some (of_Z 12);
     ti_color := None; ti_fontName := None |}.

(** The pages one comma-separated token of a range contributes. *)
Definition part_selects (totalPages : Z) (part : string) (p : Z) : Prop :=
  if includes "-" part then
    exists first last rest,
      map (fun n => parseInt (trim n)) (split "-" part) = Some first :: Some last :: rest /\
      first <= p <= Z.min last totalPages
  else parseInt (trim part) = Some p /\ 1 <= p <= totalPages.


(** A string of [n] spaces. *)
Fixpoint padding (n : nat) : string :=
  match n with
  | O => EmptyString
  | S k => String " " (padding k)
  end.

(** The parser configured to split the text into pages. *)
Definition page_info_config : PdfConfig :=
  {| extractMetadata := None; extractImages := None; includePageInfo := Some true;
     outputFormat := None; safetyChecks := None; maxPages := None; password := None |}.



(** A text with nothing but its words and its position. *)
Definition plain_text (t : string) (position : list number) : TextInsertion :=
  {| ti_text := t; ti_position := position; ti_pageNumber := None; ti_fontSize := None;
     ti_color := None; ti_fontName := None |}.

(** What the generator takes for an available engine: one that [which]
    finds, or one named like an inherited property. *)
Definition available (which : string -> bool) (engine : string) : bool :=
  which engine || bool_decide (engine ∈ PdfGenerator.inherited_keys).

(** What the lookups keep: the cache holds what [which] answered, for the
    engines looked up and for no inherited name, each one looked up once. *)
Definition cache_sound (which : string -> bool) (s : PdfGenerator.State) : Prop :=
  (forall engine found,
      PdfGenerator.engineCache s !! engine = Some found ->
      found = which engine /\ engine ∉ PdfGenerator.inherited_keys) /\
  NoDup (PdfGenerator.looked_up s) /\
  (forall engine,
      engine ∈ PdfGenerator.looked_up s <->
      is_Some (PdfGenerator.engineCache s !! engine)).

(** The engine chosen, told without the cache. *)
Definition chosen_engine (which : string -> bool) (engine template : string) : option string :=
  if negb (String.eqb engine "auto") && available which engine then Some engine
  else
    match find (available which) (PdfGenerator.preferredEngines template) with
    | Some chosen => Some chosen
    | None => find (available which) PdfGenerator.fallbackEngines
    end.

(** The state of a generator after the engine choices of several
    generations, each given by its engine and its template. *)
Definition generate_all (which : string -> bool) (requests : list (string * string))
    (s : PdfGenerator.State) : PdfGenerator.State :=
  fold_left (fun s' request =>
               snd (PdfGenerator.selectEngine which (fst request) (snd request) s'))
            requests s.

(** The generator as its constructor leaves it. *)
Definition new_generator : PdfGenerator.State :=
  {| PdfGenerator.engineCache := ∅; PdfGenerator.looked_up := [] |}.

(** A machine with typst and no LaTeX, and a machine with no engine. *)
Definition typst_only (engine : string) : bool := String.eqb engine "typst".
Definition nothing_installed (engine : string) : bool := false.

End Vocabulary.

(** * Properties *)

(** ** Page ranges *)

Section PageRange.

Import PdfParser.

Lemma includes_Z_false (x : Z) (l : list Z) : includes_Z x l = false <-> x ∉ l.
Proof.
  unfold includes_Z. induction l as [|y l IH]; simpl.
  - split; [intros _; apply not_elem_of_nil | done].
  - rewrite orb_false_iff, IH, not_elem_of_cons, Z.eqb_neq. tauto.
Qed.

Lemma insert_sorted_perm (x : Z) (l : list Z) : insert_sorted x l ≡ₚ x :: l.
Proof.
  induction l as [|y l IH]; simpl; [done|].
  destruct (x <=? y); [done|]. rewrite IH. apply Permutation_swap.
Qed.

Lemma sort_numeric_perm (l : list Z) : sort_numeric l ≡ₚ l.
Proof.
  induction l as [|x l IH]; simpl; [done|].
  unfold sort_numeric in *. simpl. rewrite insert_sorted_perm. by rewrite IH.
Qed.

(** Ascending with every element above a bound: what insertion preserves. *)
Lemma ascending_cons (x : Z) (l : list Z) :
  strictly_ascending (x :: l) = true <->
  Forall (fun y => x < y) l /\ strictly_ascending l = true.
Proof.
  revert x. induction l as [|y l IH]; intros x.
  - simpl. split; [intros _; split; [constructor | done] | done].
  - change (strictly_ascending (x :: y :: l)) with ((x <? y) && strictly_ascending (y :: l)).
    rewrite andb_true_iff, Z.ltb_lt, Forall_cons. split.
    + intros [Hxy Hy]. split; [|done]. split; [done|].
      apply IH in Hy as [Hall _]. eapply Forall_impl; [exact Hall|]. simpl. lia.
    + intros [[Hxy _] Hy]. done.
Qed.

Lemma insert_sorted_ascending (x : Z) (l : list Z) :
  strictly_ascending l = true -> x ∉ l -> strictly_ascending (insert_sorted x l) = true.
Proof.
  induction l as [|y l IH]; intros Hl Hx; [done|].
  simpl. apply not_elem_of_cons in Hx as [Hxy Hx].
  apply ascending_cons in Hl as [Hall Hl].
  destruct (x <=? y) eqn:E.
  - apply Z.leb_le in E. apply ascending_cons. split.
    + constructor; [lia|]. eapply Forall_impl; [exact Hall|]. simpl. lia.
    + apply ascending_cons. done.
  - apply Z.leb_gt in E. apply ascending_cons. split.
    + rewrite insert_sorted_perm. constructor; [lia | done].
    + by apply IH.
Qed.

Lemma sort_numeric_ascending (l : list Z) :
  NoDup l -> strictly_ascending (sort_numeric l) = true.
Proof.
  induction 1 as [|x l Hx Hl IH]; [done|].
  change (sort_numeric (x :: l)) with (insert_sorted x (sort_numeric l)).
  apply insert_sorted_ascending; [done|]. by rewrite sort_numeric_perm.
Qed.

Lemma push_keeps_invariant (totalPages i : Z) (pages : list Z) :
  i <= totalPages -> pages_invariant totalPages pages ->
  pages_invariant totalPages (if includes_Z i pages then pages else pages ++ [i]).
Proof.
  intros Hi [Hnd Hle]. destruct (includes_Z i pages) eqn:E; [done|].
  apply includes_Z_false in E. split.
  - apply NoDup_app. repeat split; [done | | apply NoDup_singleton].
    intros x Hx Hx'. apply list_elem_of_singleton in Hx'. by subst.
  - apply Forall_app. split; [done|]. by constructor.
Qed.

Lemma push_range_invariant (totalPages first bound : Z) (pages : list Z) :
  bound <= totalPages -> pages_invariant totalPages pages ->
  pages_invariant totalPages (push_range first bound pages).
Proof.
  intros Hb. unfold push_range.
  assert (Forall (fun i => i <= totalPages)
            (map (fun k : nat => first + Z.of_nat k) (seq 0 (Z.to_nat (bound - first + 1)))))
    as Hall.
  { apply Forall_forall. intros i Hi. apply list_elem_of_fmap in Hi as (k & -> & Hk).
    apply elem_of_seq in Hk. lia. }
  revert pages. induction Hall as [|i l Hi _ IH]; intros pages Hinv; simpl; [done|].
  apply IH. by apply push_keeps_invariant.
Qed.

Lemma parsePart_invariant (totalPages : Z) (pages : list Z) (part : string) :
  pages_invariant totalPages pages -> pages_invariant totalPages (parsePart totalPages pages part).
Proof.
  intros Hinv. unfold parsePart. destruct (includes "-" part).
  - destruct (map _ _) as [|[first|] [|[last|] rest]]; try done.
    apply push_range_invariant; [lia | done].
  - destruct (parseInt (trim part)) as [pageNum|]; [|done].
    destruct (1 <=? pageNum) eqn:E1; simpl; [|done].
    destruct (pageNum <=? totalPages) eqn:E2; simpl; [|done].
    apply Z.leb_le in E2.
    pose proof (push_keeps_invariant totalPages pageNum pages E2 Hinv) as H.
    destruct (includes_Z pageNum pages); done.
Qed.

Lemma parse_parts_invariant (totalPages : Z) (parts : list string) (pages : list Z) :
  pages_invariant totalPages pages ->
  pages_invariant totalPages (fold_left (parsePart totalPages) parts pages).
Proof.
  revert pages. induction parts as [|part parts IH]; intros pages Hinv; simpl; [done|].
  apply IH. by apply parsePart_invariant.
Qed.

(** The part of the contract that holds for every input: the result is
    strictly ascending, hence free of duplicates, and never exceeds the
    page count. *)
Lemma parsePageRange_ascending (range : string) (totalPages : Z) :
  strictly_ascending (parsePageRange range totalPages) = true.
Proof.
  apply sort_numeric_ascending.
  apply (parse_parts_invariant totalPages (split "," range) []). split; constructor.
Qed.

Lemma parsePageRange_at_most_totalPages (range : string) (totalPages : Z) :
  Forall (fun p => p <= totalPages) (parsePageRange range totalPages).
Proof.
  unfold parsePageRange. rewrite sort_numeric_perm.
  apply (parse_parts_invariant totalPages (split "," range) []). split; constructor.
Qed.

Example parsePageRange_degenerate : parsePageRange "5-3,2" 10 = [2].
Proof. reflexivity. Qed.

Example parsePageRange_clipped : parsePageRange "1,3,5-7,100" 6 = [1; 3; 5; 6].
Proof. reflexivity. Qed.

(** C4 (the code departs from the claim): a range token whose first number is
    below 1 is not clipped from below.  For the range ["0-2"] of a five-page
    document [parsePageRange] returns page 0, which is outside [[1, 5]]; the
    branch for a bare number does check [pageNum >= 1]. *)
Theorem parsePageRange_range_start_unchecked :
  parsePageRange "0-2" 5 = [0; 1; 2] /\
  ~ within_document 5 (parsePageRange "0-2" 5) /\
  parsePageRange "0" 5 = [].
Proof.
  split; [reflexivity|]. split; [|reflexivity].
  intros H. unfold within_document in H.
  change (parsePageRange "0-2" 5) with [0; 1; 2] in H.
  apply Forall_cons in H as [[H _] _]. lia.
Qed.

End PageRange.

(** C10: when page information was not produced, which is the default of the
    constructor, [extractPages] returns the whole text pdf-parse extracted,
    whatever the page range asked for. *)
Theorem extractPages_without_page_info_returns_whole_text
    (w : World) (cfg : PdfConfig) (filePath pageRange : string) :
  default false (includePageInfo cfg) = false ->
  success (PdfParser.parseFile w (PdfParser.constructor cfg) filePath) = true ->
  exists (buffer : string) (options : PdfParseOptions) (out : PdfParseOutput),
    readFileSync w filePath = Ok buffer /\
    pdfParse w buffer options = Ok out /\
    PdfParser.extractPages w (PdfParser.constructor cfg) filePath pageRange = Ok (pp_text out).
Proof.
  intros Hoff. unfold PdfParser.extractPages, PdfParser.parseFile.
  change (PdfParser.c_includePageInfo (PdfParser.constructor cfg))
    with (default false (includePageInfo cfg)).
  rewrite Hoff.
  set (options := {| opt_password := _; opt_max := _ |}).
  destruct (PdfParser.c_safetyChecks (PdfParser.constructor cfg)).
  - destruct (SafetyManager.validateFile w false filePath) as [[|] iss h sz]; simpl.
    + destruct (readFileSync w filePath) as [buffer|m] eqn:Er; simpl; [|done].
      destruct (pdfParse w buffer options) as [out|m] eqn:Ep; simpl; [|done].
      intros _. by exists buffer, options, out.
    + done.
  - destruct (readFileSync w filePath) as [buffer|m] eqn:Er; simpl; [|done].
    destruct (pdfParse w buffer options) as [out|m] eqn:Ep; simpl; [|done].
    intros _. by exists buffer, options, out.
Qed.

(** On the sample file, with the default configuration and the range ["2"]. *)
Lemma extractPages_without_page_info_witness :
  exists (buffer : string) (options : PdfParseOptions) (out : PdfParseOutput),
    readFileSync Sample.world "in/a.pdf" = Ok buffer /\
    pdfParse Sample.world buffer options = Ok out /\
    PdfParser.extractPages Sample.world (PdfParser.constructor PdfParser.empty_config)
      "in/a.pdf" "2" = Ok (pp_text out).
Proof.
  apply (extractPages_without_page_info_returns_whole_text
           Sample.world PdfParser.empty_config "in/a.pdf" "2"); reflexivity.
Defined.

(** ** The single-document modifier *)

Section Modifier.

Import PDFModifier.















Lemma when_nonempty_run {A} (step : PDFDocument -> A -> PDFDocument * bool)
    (items : list A) (d : PDFDocument) :
  when_nonempty items (fun d' l => run_edits step l d') d = run_edits step items d.
Proof. by destruct items. Qed.




End Modifier.

Section ModifyPdf.

Import PDFModifier.

Lemma when_nonempty_same {A} (run : PDFDocument -> list A -> PDFDocument * nat)
    (items : list A) (d : PDFDocument) :
  run d [] = (d, O) -> when_nonempty items run d = run d items.
Proof. intros H. destruct items; [by rewrite H | done]. Qed.


(** The four passes as plain loops. *)
Lemma apply_edits_unfold (w : World) (o : ModifyOptions) (pdfDoc : PDFDocument) :
  apply_edits w o pdfDoc =
  let p1 := fillForms w pdfDoc (formData o) in
  let p2 := addSignatures w (fst p1) (signatures o) in
  let p3 := insertText w (fst p2) (o_textInsertions o) in
  let p4 := insertImages w (fst p3) (o_imageInsertions o) in
  (fst p4, (snd p1, snd p2, snd p3, snd p4)).
Proof.
  unfold apply_edits. rewrite when_nonempty_same by done.
  destruct (fillForms _ _ _) as [d1 n1]; simpl.
  rewrite when_nonempty_same by done.
  destruct (addSignatures _ _ _) as [d2 n2]; simpl.
  rewrite when_nonempty_same by done.
  destruct (insertText _ _ _) as [d3 n3]; simpl.
  rewrite when_nonempty_same by done.
  by destruct (insertImages _ _ _) as [d4 n4].
Qed.

(** C7: [modifyPdf] never throws; it reports [success = false] exactly when
    the source cannot be opened or the edited document cannot be saved, and
    then the result carries an error message, no count, an empty output path,
    and nothing was written.  In every other case [success] is [true] and the
    document was written to the output path. *)
Theorem modifyPdf_fails_exactly_on_open_or_persist
    (w : World) (o : ModifyOptions) :
  (m_success (result (modifyPdf w o)) = false <-> cannot_open w o \/ cannot_persist w o) /\
  (m_success (result (modifyPdf w o)) = false ->
     is_Some (errorMessage (result (modifyPdf w o))) /\
     modificationsApplied (result (modifyPdf w o)) = O /\
     signaturesAdded (result (modifyPdf w o)) = O /\
     formsFilled (result (modifyPdf w o)) = O /\
     textInsertions (result (modifyPdf w o)) = O /\
     imageInsertions (result (modifyPdf w o)) = O /\
     outputPath (result (modifyPdf w o)) = EmptyString /\
     written (modifyPdf w o) = None) /\
  (m_success (result (modifyPdf w o)) = true ->
     errorMessage (result (modifyPdf w o)) = None /\
     outputPath (result (modifyPdf w o)) = o_outputPath o /\
     is_Some (written (modifyPdf w o))).
Proof.
  unfold modifyPdf, modifyWithPdfLib, cannot_open, cannot_persist.
  destruct (readFileSync w (inputPath o)) as [bytes|m] eqn:Er; simpl.
  2:{ repeat split; eauto; done. }
  destruct (PDFDocument_load w bytes) as [pdfDoc|m] eqn:El; simpl.
  2:{ repeat split; eauto; done. }
  destruct (apply_edits w o pdfDoc) as [d [[[n1 n2] n3] n4]] eqn:Ea.
  destruct (save_and_write w (o_outputPath o) d) as [[]|m] eqn:Es; simpl.
  - repeat split; eauto; try done.
    intros [[m H]|(b & p & m & Hb & Hp & Hs)]; [done|].
    injection Hb as <-. rewrite El in Hp. injection Hp as <-.
    rewrite Ea in Hs. simpl in Hs. congruence.
  - repeat split; eauto; try done.
    intros _. right. exists bytes, pdfDoc, m. rewrite Ea. by repeat split.
Qed.

Example modifyPdf_corrupt_source :
  result (modifyPdf Sample.world
            {| inputPath := "in/b.pdf"; o_outputPath := "out/b.pdf"; signatures := [];
               formData := []; o_textInsertions := [Sample.text_on 0];
               o_imageInsertions := [] |})
  = {| m_success := false; modificationsApplied := 0; signaturesAdded := 0; formsFilled := 0;
       textInsertions := 0; imageInsertions := 0; outputPath := EmptyString; m_processingTime := 5;
       errorMessage := Some "Failed to parse PDF document" |}.
Proof. reflexivity. Qed.

Example modifyPdf_cannot_save :
  modifyPdf Sample.read_only_world (Sample.request [] [Sample.text_on 0] [])
  = failure Sample.read_only_world (Sample.request [] [Sample.text_on 0] [])
      "PDF modification failed: Error: EACCES: permission denied".
Proof. reflexivity. Qed.

(** The end-to-end scenario of the specification: one text on page 0 of a
    two-page document. *)
Example modifyPdf_approved_on_first_page :
  modifyPdf Sample.world (Sample.request [] [Sample.text_on 0] [])
  = {| result :=
         {| m_success := true; modificationsApplied := 1; signaturesAdded := 0;
            formsFilled := 0; textInsertions := 1; imageInsertions := 0;
            outputPath := "out/a.pdf"; m_processingTime := 5; errorMessage := None |};
       written :=
         Some {| getPages :=
                   [[DrawText "APPROVED" (Some (of_Z 450)) (Some (of_Z 50)) (of_Z 12)
                       (of_Z 0, of_Z 0, of_Z 0)]; []];
                 getFields := [Sample.name_field; Sample.agree_field];
                 embedded := [] |} |}.
Proof. reflexivity. Qed.



Example absent_field_only :
  result (modifyPdf Sample.world (Sample.request [Sample.absent_field_item] [] []))
  = {| m_success := true; modificationsApplied := 0; signaturesAdded := 0; formsFilled := 0;
       textInsertions := 0; imageInsertions := 0; outputPath := "out/a.pdf";
       m_processingTime := 5; errorMessage := None |}.
Proof. reflexivity. Qed.

End ModifyPdf.

(** ** The batch command *)

Section PromiseAll.

Import Cli.

Context {A : Type} (values : list A).





End PromiseAll.

Section Batch.

Import PDFModifier Cli.



(** The scenario of the specification: three files, the second corrupt. *)
Example batch_isolates_the_corrupt_file :
  batch_modify_action Sample.world [1; 2; 0]%nat "in" "out"
    {| pattern := "*.pdf"; addSignature := None; signaturePosition := "400,700,500,750";
       fillForm := FillFormArray []; addText := Some "APPROVED"; textPosition := "450,50";
       textPage := "0"; fontSize := "12"; allPages := false; config := None;
       template := None; previewOnly := false; parallel := true |}
  = Finished 0
      [ {| row_file := "a.pdf"; status := success_status; row_modifications := Some 1%nat;
           row_time := Some 5; row_error := None |};
        {| row_file := "b.pdf"; status := failed_status; row_modifications := None;
           row_time := None; row_error := Some "Failed to parse PDF document" |};
        {| row_file := "c.pdf"; status := success_status; row_modifications := Some 1%nat;
           row_time := Some 5; row_error := None |} ].
Proof. reflexivity. Qed.

End Batch.

Section ExitCodes.

Import PDFModifier Cli.



Example batch_all_files_fail :
  batch_modify_action Sample.read_only_world [] "in" "out"
    {| pattern := "*.pdf"; addSignature := None; signaturePosition := "400,700,500,750";
       fillForm := FillFormArray []; addText := Some "APPROVED"; textPosition := "450,50";
       textPage := "0"; fontSize := "12"; allPages := false; config := None;
       template := None; previewOnly := false; parallel := false |}
  = Finished 0
      [ failed_row "a.pdf" (Some "PDF modification failed: Error: EACCES: permission denied");
        failed_row "b.pdf" (Some "Failed to parse PDF document");
        failed_row "c.pdf" (Some "PDF modification failed: Error: EACCES: permission denied") ].
Proof. reflexivity. Qed.

Example modify_fails_on_corrupt_file :
  exit_code (modify_action Sample.world "in/b.pdf" "out/b.pdf"
               {| pattern := "*.pdf"; addSignature := None; signaturePosition := "400,700,500,750";
                  fillForm := FillFormArray []; addText := Some "APPROVED";
                  textPosition := "450,50"; textPage := "0"; fontSize := "12";
                  allPages := false; config := None; template := None;
                  previewOnly := false; parallel := false |}) = 1.
Proof. reflexivity. Qed.

End ExitCodes.

Section Templates.

Import PDFModifier Cli.

Lemma loadModificationTemplate_cases (w : World) (name : string) (t : Modifications) :
  loadModificationTemplate w name = Some t ->
  In (name, t) (templates w).
Proof.
  unfold loadModificationTemplate. intros H.
  destruct (find _ (templates w)) as [[n t']|] eqn:E; [|done].
  injection H as ->. apply find_some in E as [Hin Heq]. simpl in Heq.
  apply String.eqb_eq in Heq. by subst.
Qed.

Lemma template_has_a_key (w : World) (name : string) (t : Modifications) :
  loadModificationTemplate w name = Some t ->
  is_Some (t !! "textInsertions") \/ is_Some (t !! "signatures").
Proof.
  intros H%loadModificationTemplate_cases. unfold templates in H. simpl in H.
  destruct H as [[= <- <-]|[[= <- <-]|[[= <- <-]|[[= <- <-]|[]]]]].
  - left. rewrite lookup_singleton_eq. eauto.
  - left. rewrite lookup_insert_eq. eauto.
  - right. rewrite lookup_singleton_eq. eauto.
  - left. rewrite lookup_singleton_eq. eauto.
Qed.

Lemma spread_template_nonempty (w : World) (name : string) (t loaded : Modifications) :
  loadModificationTemplate w name = Some t -> (size (spread loaded t) =? 0)%nat = false.
Proof.
  intros H. apply Nat.eqb_neq. intros Hsize. apply map_size_empty_iff in Hsize.
  apply template_has_a_key in H as [[v Hv]|[v Hv]].
  - assert (spread loaded t !! "textInsertions" = Some v) as Hl
      by (by apply lookup_union_Some_l).
    rewrite Hsize in Hl. by rewrite lookup_empty in Hl.
  - assert (spread loaded t !! "signatures" = Some v) as Hl
      by (by apply lookup_union_Some_l).
    rewrite Hsize in Hl. by rewrite lookup_empty in Hl.
Qed.

(** The request of a batch that names a known template. *)
Lemma build_modifications_with_template (w : World) (o : Options) (name : string)
    (t loaded : Modifications) :
  truthy_string (template o) = Some name ->
  loadModificationTemplate w name = Some t ->
  match truthy_string (config o) with
  | Some path => read_json_config w path
  | None => Ok ∅
  end = Ok loaded ->
  build_modifications w o = Ok (spread loaded t).
Proof.
  intros Hname Ht Hloaded. unfold build_modifications.
  rewrite Hloaded. simpl. rewrite Hname, Ht.
  by rewrite (spread_template_nonempty w name t loaded Ht).
Qed.

Lemma allTextInsertions_elem (pageCount : nat) (base : list TextInsertion) (c : TextInsertion) :
  c ∈ allTextInsertions pageCount base <->
  exists (pageNum : nat) (b : TextInsertion),
    (pageNum < pageCount)%nat /\ b ∈ base /\
    c = {| ti_text := ti_text b; ti_position := ti_position b;
           ti_pageNumber := Some (of_Z (Z.of_nat pageNum)); ti_fontSize := ti_fontSize b;
           ti_color := None; ti_fontName := None |}.
Proof.
  unfold allTextInsertions. rewrite list_elem_of_In, in_flat_map. split.
  - intros (pageNum & Hp & Hc). apply in_seq in Hp.
    apply list_elem_of_In, list_elem_of_fmap in Hc as (b & -> & Hb).
    exists pageNum, b. repeat split; [lia | done].
  - intros (pageNum & b & Hp & Hb & ->). exists pageNum. split; [apply in_seq; lia|].
    apply list_elem_of_In, list_elem_of_fmap. by exists b.
Qed.



Lemma approval_stamp_template (w : World) :
  loadModificationTemplate w "approval-stamp" = Some (approval_stamp (iso_date (new_Date w 0))).
Proof. reflexivity. Qed.


End Templates.

(** ** Building the request of a batch *)

Section Request.

Import PDFModifier Cli.

(** C1, as stated, fails: the approval stamp has two edits, and the request
    built from it together with [--add-text PAID] has two edits, not three. *)
Lemma template_with_add_text_is_not_additive :
  exists t m,
    loadModificationTemplate Sample.world "approval-stamp" = Some t /\
    build_modifications Sample.world (with_add_text "PAID" approval_run) = Ok m /\
    edit_count t = 2%nat /\
    edit_count m = 2%nat /\
    edit_count m <> (edit_count t + 1)%nat.
Proof.
  eexists _, _. split; [reflexivity|]. split; [reflexivity|].
  split; [reflexivity|]. split; [reflexivity|]. vm_compute. discriminate.
Qed.

Lemma spread_lookup (loaded t : Modifications) (key : string) :
  spread loaded t !! key = match t !! key with
                           | Some v => Some v
                           | None => loaded !! key
                           end.
Proof.
  unfold spread. destruct (t !! key) as [v|] eqn:E.
  - by apply lookup_union_Some_l.
  - by apply lookup_union_r.
Qed.

(** C1, amended: the sources of a request override one another.  A known
    template replaces, key by key, what the configuration file holds and
    keeps the other keys of the file; the flags of the command line are read
    only when neither of them supplied a key.  With a known template and no
    configuration file the request has the edits of the template, whatever
    the flags. *)
Theorem request_sources_override
    (w : World) (o : Options) (loaded : Modifications) :
  match truthy_string (config o) with
  | Some path => read_json_config w path
  | None => Ok ∅
  end = Ok loaded ->
  (forall name t,
      truthy_string (template o) = Some name ->
      loadModificationTemplate w name = Some t ->
      build_modifications w o = Ok (spread loaded t) /\
      (forall key, spread loaded t !! key = match t !! key with
                                            | Some v => Some v
                                            | None => loaded !! key
                                            end) /\
      (loaded = ∅ -> edit_count (spread loaded t) = edit_count t)) /\
  ((truthy_string (template o) = None \/
    exists name, truthy_string (template o) = Some name /\
                 loadModificationTemplate w name = None) ->
   build_modifications w o
   = Ok (if (size loaded =? 0)%nat then cli_modifications o else loaded)).
Proof.
  intros Hloaded. split.
  - intros name t Hname Ht. split; [by eapply build_modifications_with_template|].
    split; [apply spread_lookup|].
    intros ->. unfold edit_count, get_signatures, get_formData, get_textInsertions.
    rewrite !spread_lookup, !lookup_empty.
    by destruct (t !! "signatures"), (t !! "formData"), (t !! "textInsertions").
  - intros Hnone. unfold build_modifications. rewrite Hloaded. simpl.
    destruct Hnone as [->|(name & -> & ->)]; done.
Qed.

(** The approval stamp with [--add-text PAID]: the request is the stamp. *)
Lemma request_sources_override_witness :
  build_modifications Sample.world (with_add_text "PAID" approval_run)
  = Ok (spread ∅ (approval_stamp "2024-03-01")).
Proof.
  refine (proj1 (proj1 (request_sources_override Sample.world
                          (with_add_text "PAID" approval_run) ∅ _)
                       "approval-stamp" (approval_stamp "2024-03-01") _ _));
    reflexivity.
Defined.

(** Without template and configuration file the flags make the request. *)
Example request_from_flags :
  edit_count (cli_modifications (with_add_text "PAID" default_options)) = 1%nat.
Proof. reflexivity. Qed.

End Request.

(** ** All-pages expansion *)

Section AllPages.

Import PDFModifier Cli.

Lemma allTextInsertions_length (pageCount : nat) (base : list TextInsertion) :
  List.length (allTextInsertions pageCount base) = (pageCount * List.length base)%nat.
Proof.
  unfold allTextInsertions. generalize 0%nat.
  induction pageCount as [|n IH]; intros start; simpl; [done|].
  by rewrite length_app, length_map, IH.
Qed.

(** The expansion the specification describes, on one text of a four-page
    document: four copies, one per page. *)
Example allTextInsertions_four_pages :
  map ti_pageNumber (allTextInsertions 4 [template_text "CONFIDENTIAL" 200 400 48])
  = [Some (of_Z 0); Some (of_Z 1); Some (of_Z 2); Some (of_Z 3)].
Proof. reflexivity. Qed.

(** C2 (the code departs from the claim): the copies made for the pages are
    not identical to the source edit in the other fields, for no copy has a
    colour or a font name.  A red text expanded over a two-page document
    yields two copies without colour, so both pages receive the text in
    black, whereas the same edit drawn without expansion is red. *)
Theorem all_pages_copies_lose_color :
  (forall pageCount base c,
      c ∈ allTextInsertions pageCount base -> ti_color c = None /\ ti_fontName c = None) /\
  ti_color Sample.red_draft = Some [of_Z 1; of_Z 0; of_Z 0] /\
  allTextInsertions 2 [Sample.red_draft] = [black_draft 0; black_draft 1] /\
  written <$> applyModificationsAllPages Sample.world "in/a.pdf" "out/a.pdf"
                {[ "textInsertions" := JTextInsertions [Sample.red_draft] ]}
  = Ok (Some {| getPages :=
                  [[DrawText "DRAFT" (Some (of_Z 100)) (Some (of_Z 100)) (of_Z 12)
                      (of_Z 0, of_Z 0, of_Z 0)];
                   [DrawText "DRAFT" (Some (of_Z 100)) (Some (of_Z 100)) (of_Z 12)
                      (of_Z 0, of_Z 0, of_Z 0)]];
                getFields := [Sample.name_field; Sample.agree_field];
                embedded := [] |}) /\
  written (modifyPdf Sample.world (Sample.request [] [Sample.red_draft] []))
  = Some {| getPages :=
              [[DrawText "DRAFT" (Some (of_Z 100)) (Some (of_Z 100)) (of_Z 12)
                  (of_Z 1, of_Z 0, of_Z 0)]; []];
            getFields := [Sample.name_field; Sample.agree_field];
            embedded := [] |}.
Proof.
  split; [|repeat split].
  intros pageCount base c Hc. apply allTextInsertions_elem in Hc as (pageNum & b & _ & _ & ->).
  by split.
Qed.

(** The flag [allPages] of a template is not what the loop over the files
    tests: without [--all-pages] the watermark goes on the first page only. *)
Example watermark_template_is_not_expanded :
  exists m,
    build_modifications Sample.world watermark_run = Ok m /\
    m !! "allPages" = Some (JBool true) /\
    o_textInsertions <$> file_request Sample.world watermark_run "out" m "in/c.pdf"
    = Ok [template_text "CONFIDENTIAL" 200 400 48].
Proof. eexists. repeat split. Qed.

End AllPages.

(** ** Positions on the command line *)

Section Positions.

Import PDFModifier Cli.

(** C5, as stated, fails: four tokens that are not numbers are accepted, each
    becoming [NaN]. *)
Lemma modify_accepts_four_non_numeric_tokens :
  ~ four_numeric_tokens "a,b,c,d" /\
  modify_signatures (with_signature "sig.png" "a,b,c,d" default_options)
  = Ok [image_signature [NaN; NaN; NaN; NaN] "sig.png"].
Proof.
  split; [|reflexivity]. intros [_ H]. apply Forall_cons in H as [H _]. by apply H.
Qed.

(** C5, amended: in [modify] the position of a signature is refused exactly
    when it does not split at commas into four parts, and the command then
    exits with status 1 before any document is touched; with four parts the
    position is the list of their [parseFloat] values, numeric or not. *)
Theorem modify_position_needs_four_parts
    (w : World) (input output path : string) (o : Options) :
  truthy_string (addSignature o) = Some path ->
  (List.length (split "," (signaturePosition o)) <> 4%nat ->
   modify_signatures o = Throw "Signature position must be x1,y1,x2,y2" /\
   modify_action w input output o = {| exit_code := 1; call := None |}) /\
  (List.length (split "," (signaturePosition o)) = 4%nat ->
   modify_signatures o
   = Ok [image_signature (map (fun x => parseFloat (trim x)) (split "," (signaturePosition o)))
           path]) /\
  List.length (split "," "400,700,500") = 3%nat /\
  map (fun x => parseFloat (trim x)) (split "," "400,700,500,750")
  = [of_Z 400; of_Z 700; of_Z 500; of_Z 750].
Proof.
  intros Hpath. split; [|split; [|by split]].
  - intros Hlen.
    assert (modify_signatures o = Throw "Signature position must be x1,y1,x2,y2") as Hthrow.
    { unfold modify_signatures, positionParts. rewrite Hpath, length_map.
      by apply Nat.eqb_neq in Hlen as ->. }
    split; [done|]. unfold modify_action. by rewrite Hthrow.
  - intros Hlen. unfold modify_signatures, positionParts. rewrite Hpath, length_map.
    by apply Nat.eqb_eq in Hlen as ->.
Qed.

(** A position of three parts is refused by [modify]. *)
Lemma modify_position_needs_four_parts_witness :
  modify_signatures (with_signature "sig.png" "400,700,500" default_options)
  = Throw "Signature position must be x1,y1,x2,y2" /\
  modify_action Sample.world "in/a.pdf" "out/a.pdf"
    (with_signature "sig.png" "400,700,500" default_options)
  = {| exit_code := 1; call := None |}.
Proof.
  refine (proj1 (modify_position_needs_four_parts Sample.world "in/a.pdf" "out/a.pdf" "sig.png"
                   (with_signature "sig.png" "400,700,500" default_options) _) _).
  - reflexivity.
  - vm_compute. discriminate.
Defined.

Example modify_accepts_default_position :
  modify_signatures (with_signature "sig.png" "400,700,500,750" default_options)
  = Ok [image_signature [of_Z 400; of_Z 700; of_Z 500; of_Z 750] "sig.png"].
Proof. reflexivity. Qed.

(** The batch command builds the same signature without counting the parts. *)
Example batch_accepts_three_parts :
  get_signatures (cli_modifications (with_signature "sig.png" "400,700,500" default_options))
  = [image_signature [of_Z 400; of_Z 700; of_Z 500] "sig.png"].
Proof. reflexivity. Qed.

End Positions.

(** * Further properties of the code *)

(** ** Page ranges: what is selected *)

Section PageRangeMembership.

Import PdfParser.

Lemma push_elem (i x : Z) (acc : list Z) :
  x ∈ (if includes_Z i acc then acc else (acc ++ [i])%list) <-> x ∈ acc \/ x = i.
Proof.
  destruct (includes_Z i acc) eqn:E.
  - split; [by left|]. intros [H| ->]; [done|].
    destruct (decide (i ∈ acc)) as [Hin|Hout]; [done|].
    apply includes_Z_false in Hout. congruence.
  - rewrite elem_of_app, list_elem_of_singleton. tauto.
Qed.

Lemma fold_push_elem (l acc : list Z) (x : Z) :
  x ∈ fold_left (fun acc i => if includes_Z i acc then acc else (acc ++ [i])%list) l acc
  <-> x ∈ acc \/ x ∈ l.
Proof.
  revert acc. induction l as [|i l IH]; intros acc; simpl.
  - split; [by left|]. intros [H|H]; [done|]. by apply elem_of_nil in H.
  - rewrite IH, push_elem, elem_of_cons. tauto.
Qed.

Lemma push_range_elem (first bound x : Z) (acc : list Z) :
  x ∈ push_range first bound acc <-> x ∈ acc \/ first <= x <= bound.
Proof.
  unfold push_range. rewrite fold_push_elem. apply or_iff_compat_l.
  rewrite list_elem_of_fmap. split.
  - intros (k & -> & Hk). apply elem_of_seq in Hk. lia.
  - intros Hx. exists (Z.to_nat (x - first)). split; [lia|]. apply elem_of_seq. lia.
Qed.

Lemma parsePart_elem (totalPages x : Z) (acc : list Z) (part : string) :
  x ∈ parsePart totalPages acc part <-> x ∈ acc \/ part_selects totalPages part x.
Proof.
  unfold parsePart, part_selects. destruct (includes "-" part).
  - destruct (map _ (split "-" part)) as [|[first|] [|[last|] rest]] eqn:E;
      try (split; [by left | intros [H|(f & l & r & [=] & _)]; done]).
    rewrite push_range_elem. apply or_iff_compat_l. split.
    + intros Hx. by exists first, last, rest.
    + intros (f & l & r & [= <- <- <-] & Hx). done.
  - destruct (parseInt (trim part)) as [pageNum|];
      [|split; [by left | intros [H|[[=] _]]; done]].
    destruct (1 <=? pageNum) eqn:E1; simpl.
    2:{ apply Z.leb_gt in E1. split; [by left|]. intros [H|[[= ->] ?]]; [done | lia]. }
    destruct (pageNum <=? totalPages) eqn:E2; simpl.
    2:{ apply Z.leb_gt in E2. split; [by left|]. intros [H|[[= ->] ?]]; [done | lia]. }
    apply Z.leb_le in E1, E2.
    pose proof (push_elem pageNum x acc) as Hp.
    assert (x = pageNum <-> Some pageNum = Some x /\ 1 <= x <= totalPages) as Heq.
    { split; [by intros -> | by intros [[= ->] _]]. }
    destruct (includes_Z pageNum acc); simpl; rewrite <- Heq; tauto.
Qed.

Lemma parse_parts_elem (totalPages x : Z) (parts : list string) (acc : list Z) :
  x ∈ fold_left (parsePart totalPages) parts acc
  <-> x ∈ acc \/ exists part, part ∈ parts /\ part_selects totalPages part x.
Proof.
  revert acc. induction parts as [|part parts IH]; intros acc; simpl.
  - split; [by left|]. intros [H|(p & Hp & _)]; [done|]. by apply elem_of_nil in Hp.
  - rewrite IH, parsePart_elem. split.
    + intros [[H|H]|(p & Hp & Hs)]; [by left | | ].
      * right. exists part. split; [left | done].
      * right. exists p. split; [by right | done].
    + intros [H|(p & Hp & Hs)]; [by left; left|].
      apply elem_of_cons in Hp as [->|Hp]; [by left; right|].
      right. by exists p.
Qed.

(** Two strictly ascending lists with the same elements are the same list. *)
Lemma ascending_ext (l1 l2 : list Z) :
  strictly_ascending l1 = true -> strictly_ascending l2 = true ->
  (forall x, x ∈ l1 <-> x ∈ l2) -> l1 = l2.
Proof.
  revert l2. induction l1 as [|a l1 IH]; intros [|b l2] H1 H2 Hext.
  - done.
  - exfalso. eapply elem_of_nil. apply Hext. left.
  - exfalso. eapply elem_of_nil. apply Hext. left.
  - apply ascending_cons in H1 as [Ha H1]. apply ascending_cons in H2 as [Hb H2].
    rewrite Forall_forall in Ha, Hb.
    assert (a = b) as ->.
    { assert (a ∈ b :: l2) as Hin1 by (apply Hext; left).
      assert (b ∈ a :: l1) as Hin2 by (apply Hext; left).
      apply elem_of_cons in Hin1 as [?|Hin1]; [done|].
      apply elem_of_cons in Hin2 as [?|Hin2]; [done|].
      specialize (Ha _ Hin2). specialize (Hb _ Hin1). lia. }
    f_equal. apply IH; [done | done |]. intros x. split; intros Hx.
    + assert (x ∈ b :: l2) as Hin by (apply Hext; by right).
      apply elem_of_cons in Hin as [->|?]; [|done]. specialize (Ha _ Hx). lia.
    + assert (x ∈ b :: l1) as Hin by (apply Hext; by right).
      apply elem_of_cons in Hin as [->|?]; [|done]. specialize (Hb _ Hx). lia.
Qed.

(** X1: a page is in the result of [parsePageRange] exactly when one of the
    comma-separated tokens selects it: a token with a dash selects the pages
    from its first number up to the smaller of its second number and the page
    count, a bare number selects itself when it lies in [[1, totalPages]]. *)
Theorem parsePageRange_selects (range : string) (totalPages p : Z) :
  p ∈ parsePageRange range totalPages
  <-> exists part, part ∈ split "," range /\ part_selects totalPages part p.
Proof.
  unfold parsePageRange. rewrite sort_numeric_perm, parse_parts_elem.
  split; [intros [H|H]; [by apply elem_of_nil in H | done] | by right].
Qed.

(** X2: the result depends on the set of tokens only: their order and their
    repetitions do not matter. *)
Theorem parsePageRange_token_order_irrelevant (range1 range2 : string) (totalPages : Z) :
  (forall part, part ∈ split "," range1 <-> part ∈ split "," range2) ->
  parsePageRange range1 totalPages = parsePageRange range2 totalPages.
Proof.
  intros Hsame. apply ascending_ext; try apply parsePageRange_ascending.
  intros x. unfold parsePageRange. rewrite !sort_numeric_perm, !parse_parts_elem.
  apply or_iff_compat_l. split; intros (part & Hp & Hs); exists part; split; try done;
    by apply Hsame.
Qed.

Lemma parsePageRange_token_order_irrelevant_witness :
  parsePageRange "3,1-2" 5 = parsePageRange "1-2,3,3,1-2" 5.
Proof.
  apply (parsePageRange_token_order_irrelevant "3,1-2" "1-2,3,3,1-2" 5).
  intros part. change (split "," "3,1-2") with ["3"; "1-2"].
  change (split "," "1-2,3,3,1-2") with ["1-2"; "3"; "3"; "1-2"].
  rewrite !elem_of_cons. pose proof (elem_of_nil part). tauto.
Defined.

End PageRangeMembership.

(** ** Strings *)

Section Strings.

Lemma substring_app (s : string) (i n m : nat) :
  String.substring i n s +:+ String.substring (i + n) m s = String.substring i (n + m) s.
Proof.
  revert i n. induction s as [|c s IH]; intros i n.
  - by destruct i, n, m.
  - destruct i as [|i]; simpl.
    + destruct n as [|n]; simpl; [by destruct m|]. by rewrite <- (IH O n).
    + apply IH.
Qed.

Lemma substring_whole (s : string) : String.substring 0 (String.length s) s = s.
Proof. induction s as [|c s IH]; simpl; [done | by rewrite IH]. Qed.

Lemma slice_app (a b c : nat) (s : string) :
  (a <= b)%nat -> (b <= c)%nat -> slice a b s +:+ slice b c s = slice a c s.
Proof.
  intros Hab Hbc. unfold slice. set (len := String.length s).
  replace (Nat.min b len) with (Nat.min a len + (Nat.min b len - Nat.min a len))%nat at 2 by lia.
  rewrite substring_app. f_equal. lia.
Qed.

Lemma slice_whole (c : nat) (s : string) : (String.length s <= c)%nat -> slice 0 c s = s.
Proof.
  intros H. unfold slice. rewrite Nat.min_0_l, Nat.sub_0_r, Nat.min_r by done.
  apply substring_whole.
Qed.

Lemma slice_empty (a : nat) (s : string) : slice a a s = EmptyString.
Proof.
  unfold slice. rewrite Nat.sub_diag. generalize (Nat.min a (String.length s)).
  induction s as [|c s IH]; intros [|n]; simpl; done.
Qed.

Lemma split_nonempty (sep : ascii) (s : string) : split sep s <> [].
Proof.
  destruct s as [|c s]; simpl; [done|].
  destruct (Ascii.eqb c sep); [done|]. by destruct (split sep s).
Qed.

(** Joining the pieces of a split with the separator gives the string back. *)
Lemma join_split (sep : ascii) (s : string) :
  join (String sep EmptyString) (split sep s) = s.
Proof.
  induction s as [|c s IH]; simpl; [done|].
  pose proof (split_nonempty sep s) as Hne.
  destruct (Ascii.eqb_spec c sep) as [->|Hc].
  - destruct (split sep s) as [|h t]; [done|]. simpl in *. by rewrite IH.
  - destruct (split sep s) as [|h [|h' t]]; [done | |]; simpl in *; by rewrite <- IH.
Qed.

Lemma join_empty_cons (x : string) (l : list string) :
  join EmptyString (x :: l) = x +:+ join EmptyString l.
Proof.
  destruct l as [|y l]; [|done].
  change (x = x +:+ EmptyString).
  induction x as [|c x IH]; [done|].
  change (String c x = String c (x +:+ EmptyString)). by rewrite <- IH.
Qed.

End Strings.

(** ** Splitting the text into pages *)

Section Pages.

Import PdfParser.

(** The pieces cut at multiples of [avg], put end to end. *)
Lemma join_slices (avg : nat) (s : string) (count first : nat) :
  join EmptyString
    (map (fun i : nat => slice (i * avg) ((i + 1) * avg) s) (seq first count))
  = slice (first * avg) ((first + count) * avg) s.
Proof.
  revert first. induction count as [|count IH]; intros first.
  - simpl. rewrite Nat.add_0_r. by rewrite slice_empty.
  - change (seq first (S count)) with (first :: seq (S first) count).
    rewrite map_cons, join_empty_cons, IH.
    replace (S first * avg)%nat with ((first + 1) * avg)%nat by lia.
    rewrite slice_app by nia. f_equal. lia.
Qed.

Lemma slice_min_stop (a b : nat) (s : string) :
  slice a (Nat.min b (String.length s)) s = slice a b s.
Proof. unfold slice. f_equal. lia. Qed.

(** X3: [splitTextIntoPages] loses no character and adds none.  For a
    document of at least one page, the pages joined by form feeds give the
    text back when the text was split at its form feeds, and the pages put
    end to end give it back when it was cut by length. *)
Theorem splitTextIntoPages_keeps_the_text (text : string) (pageCount : Z) :
  1 <= pageCount ->
  let at_form_feeds :=
    negb (pageCount =? 1)
    && (Z.of_nat (List.length (split form_feed text)) =? pageCount) in
  join (if at_form_feeds then String form_feed EmptyString else EmptyString)
       (splitTextIntoPages text pageCount) = text.
Proof.
  intros Hpc. unfold splitTextIntoPages. destruct (pageCount =? 1) eqn:E1; simpl; [done|].
  destruct (Z.of_nat (List.length (split form_feed text)) =? pageCount) eqn:E2; simpl.
  - apply join_split.
  - set (len := Z.of_nat (String.length text)).
    set (avg := (len + pageCount - 1) / pageCount).
    assert (0 <= avg) as Havg by (apply Z.div_pos; lia).
    assert (len <= pageCount * avg) as Hcover.
    { pose proof (Z.mul_succ_div_gt (len + pageCount - 1) pageCount ltac:(lia)).
      fold avg in H. lia. }
    transitivity (slice 0 (Z.to_nat pageCount * Z.to_nat avg) text);
      [|apply slice_whole; unfold len in Hcover; lia].
    pose proof (join_slices (Z.to_nat avg) text (Z.to_nat pageCount) 0) as Hjoin.
    simpl in Hjoin. rewrite <- Hjoin. f_equal. apply map_ext_in. intros i _.
    replace (Z.to_nat (Z.min ((Z.of_nat i + 1) * avg) len))
      with (Nat.min ((i + 1) * Z.to_nat avg) (String.length text)) by (unfold len; lia).
    rewrite slice_min_stop. f_equal. lia.
Qed.

Lemma splitTextIntoPages_keeps_the_text_witness :
  join EmptyString (splitTextIntoPages "abcdefg" 3) = "abcdefg".
Proof.
  apply (splitTextIntoPages_keeps_the_text "abcdefg" 3). lia.
Defined.

Lemma splitTextIntoPages_length (text : string) (pageCount : Z) :
  List.length (splitTextIntoPages text pageCount) = Z.to_nat pageCount.
Proof.
  unfold splitTextIntoPages. destruct (pageCount =? 1) eqn:E1.
  - apply Z.eqb_eq in E1 as ->. done.
  - destruct (Z.of_nat (List.length (split form_feed text)) =? pageCount) eqn:E2.
    + apply Z.eqb_eq in E2. lia.
    + by rewrite length_map, length_seq.
Qed.

(** X4: [extractPageInfo] yields as many pages as pdf-parse counted, numbered
    from 1 in the order of the text, whatever the text. *)
Theorem extractPageInfo_numbers_the_pages (pdfData : PdfParseOutput) :
  List.length (extractPageInfo pdfData) = Z.to_nat (numpages pdfData) /\
  forall (i : nat) (page : PageInfo),
    extractPageInfo pdfData !! i = Some page ->
    pageNumber page = Z.of_nat i + 1 /\
    splitTextIntoPages (pp_text pdfData) (numpages pdfData) !! i = Some (content page).
Proof.
  unfold extractPageInfo. split.
  - by rewrite length_imap, splitTextIntoPages_length.
  - intros i page. rewrite list_lookup_imap.
    destruct (splitTextIntoPages _ _ !! i) as [c|]; simpl; [|done].
    by intros [= <-].
Qed.

End Pages.

(** ** Page ranges: bounds *)

Section PageRangeBounds.

Import PdfParser.

Lemma includes_char (c : ascii) (s : string) :
  includes (String c EmptyString) s = true <-> In c (list_ascii_of_string s).
Proof.
  induction s as [|d s IH]; simpl; [by split|].
  rewrite orb_true_iff, IH, andb_true_r. split.
  - intros [H|H]; [left | by right]. apply Ascii.eqb_eq in H. done.
  - intros [->|H]; [left | by right]. apply Ascii.eqb_refl.
Qed.

Lemma chars_app (a b : string) :
  list_ascii_of_string (a +:+ b) = (list_ascii_of_string a ++ list_ascii_of_string b)%list.
Proof. induction a as [|c a IH]; [done|]. simpl. by rewrite <- IH. Qed.

Lemma chars_rev (s : string) (c : ascii) :
  In c (list_ascii_of_string (rev_string s)) <-> In c (list_ascii_of_string s).
Proof.
  induction s as [|d s IH]; simpl; [done|].
  rewrite chars_app, in_app_iff, IH. simpl. tauto.
Qed.

Lemma chars_trim_start (s : string) (c : ascii) :
  In c (list_ascii_of_string (trim_start s)) -> In c (list_ascii_of_string s).
Proof.
  induction s as [|d s IH]; simpl; [done|].
  destruct (is_white d); [by right; apply IH | done].
Qed.

Lemma chars_trim (s : string) (c : ascii) :
  In c (list_ascii_of_string (trim s)) -> In c (list_ascii_of_string s).
Proof.
  unfold trim. intros H. apply (proj1 (chars_rev _ _)) in H. apply chars_trim_start in H.
  apply (proj1 (chars_rev _ _)) in H. by apply chars_trim_start.
Qed.

(** No piece of a split contains the separator. *)
Lemma split_pieces_without_separator (sep : ascii) (s piece : string) :
  piece ∈ split sep s -> ~ In sep (list_ascii_of_string piece).
Proof.
  revert piece. induction s as [|c s IH]; intros piece; simpl.
  - intros ->%list_elem_of_singleton. simpl. tauto.
  - destruct (Ascii.eqb_spec c sep) as [->|Hc].
    + intros [->|H]%elem_of_cons; [simpl; tauto | by apply IH].
    + pose proof (split_nonempty sep s) as Hne.
      destruct (split sep s) as [|h t]; [done|].
      intros [->|H]%elem_of_cons.
      * simpl. intros [?|H]; [done|]. apply (IH h); [left | done].
      * apply IH. by right.
Qed.

Lemma digit_value_nonneg (radix : Z) (c : ascii) (d : Z) :
  digit_value radix c = Some d -> 0 <= d.
Proof.
  unfold digit_value. set (n := Z.of_nat (nat_of_ascii c)).
  destruct ((48 <=? n) && (n <=? 57)) eqn:E1.
  { destruct (n - 48 <? radix); intros [= <-]. lia. }
  destruct ((97 <=? n) && (n <=? 122)) eqn:E2.
  { destruct (n - 87 <? radix); intros [= <-]. lia. }
  destruct ((65 <=? n) && (n <=? 90)) eqn:E3; [|done].
  destruct (n - 55 <? radix); intros [= <-]. lia.
Qed.

Lemma read_digits_nonneg (radix : Z) (s : string) (acc : Z) (count : nat) :
  0 <= radix -> 0 <= acc -> 0 <= fst (fst (read_digits radix s acc count)).
Proof.
  intros Hr. revert acc count. induction s as [|c s IH]; intros acc count Hacc; simpl; [done|].
  destruct (digit_value radix c) as [d|] eqn:E; [|done].
  apply digit_value_nonneg in E. apply IH. nia.
Qed.

(** [parseInt] yields no negative number on a string without a minus sign. *)
Lemma parseInt_nonneg (s : string) (z : Z) :
  ~ In "-"%char (list_ascii_of_string s) -> parseInt s = Some z -> 0 <= z.
Proof.
  intros Hminus. unfold parseInt.
  assert (~ In "-"%char (list_ascii_of_string (trim_start s))) as Ht
    by (intros H; by apply Hminus, chars_trim_start).
  destruct (trim_start s) as [|c r] eqn:Es.
  - simpl. done.
  - assert (read_sign (String c r) = (false, String c r) \/
            exists r', read_sign (String c r) = (false, r')) as Hsign.
    { unfold read_sign. destruct (Ascii.eqb_spec c "-") as [->|Hc].
      - exfalso. apply Ht. by left.
      - destruct (Ascii.eqb_spec c "+") as [->|Hc']; [right; by eexists|].
        left. destruct c as [[] [] [] [] [] [] [] []]; try done. }
    assert (exists r', read_sign (String c r) = (false, r')) as [r' ->]
      by (destruct Hsign as [->|?]; [by eexists | done]).
    destruct (starts_with "0x" r' || starts_with "0X" r').
    + pose proof (read_digits_nonneg 16 (drop_chars 2 r') 0 O ltac:(lia) ltac:(lia)) as H.
      destruct (read_digits 16 (drop_chars 2 r') 0 0) as [[v count] rest]. simpl in H.
      destruct count; [done|]. by intros [= <-].
    + pose proof (read_digits_nonneg 10 r' 0 O ltac:(lia) ltac:(lia)) as H.
      destruct (read_digits 10 r' 0 0) as [[v count] rest]. simpl in H.
      destruct count; [done|]. by intros [= <-].
Qed.

Lemma part_selects_nonneg (totalPages p : Z) (part : string) :
  part_selects totalPages part p -> 0 <= p.
Proof.
  unfold part_selects. destruct (includes "-" part); [|lia].
  intros (first & last & rest & Hmap & Hp).
  destruct (split "-" part) as [|piece pieces] eqn:Es; [done|].
  injection Hmap as Hfirst _.
  assert (piece ∈ split "-" part) as Hin by (rewrite Es; left).
  apply split_pieces_without_separator in Hin.
  assert (0 <= first); [|lia].
  apply (parseInt_nonneg (trim piece)); [|done].
  intros H. by apply Hin, chars_trim.
Qed.

(** X5: for every range string and page count the result of
    [parsePageRange] is strictly ascending (hence free of duplicates) and
    holds no negative number and no number above the page count. *)
Theorem parsePageRange_ascending_between_zero_and_total (range : string) (totalPages : Z) :
  strictly_ascending (parsePageRange range totalPages) = true /\
  Forall (fun p => 0 <= p <= totalPages) (parsePageRange range totalPages).
Proof.
  split; [apply parsePageRange_ascending|].
  pose proof (parsePageRange_at_most_totalPages range totalPages) as Hmax.
  rewrite Forall_forall in Hmax. apply Forall_forall. intros p Hp.
  split; [|by apply Hmax].
  unfold parsePageRange in Hp. rewrite sort_numeric_perm, parse_parts_elem in Hp.
  destruct Hp as [Hp|(part & _ & Hs)]; [by apply elem_of_nil in Hp|].
  by eapply part_selects_nonneg.
Qed.

End PageRangeBounds.

(** ** The safety screening *)

Section Screening.

Import SafetyManager.





Lemma substring_prefix (n : nat) (p r : string) :
  (n <= String.length p)%nat -> String.substring 0 n (p +:+ r) = String.substring 0 n p.
Proof.
  revert n. induction p as [|c p IH]; intros n Hn; simpl in Hn.
  - assert (n = O) as -> by lia. by destruct r.
  - destruct n as [|n]; [done|]. simpl. f_equal. apply IH. lia.
Qed.

Lemma length_append (a b : string) :
  String.length (a +:+ b) = (String.length a + String.length b)%nat.
Proof. induction a as [|c a IH]; [done|]. simpl. by rewrite <- IH. Qed.

(** X7: the screening for suspicious patterns reads the first 10000
    characters only: what follows them never changes its verdict. *)
Theorem basicMalwareCheck_reads_a_prefix_only (head rest : string) :
  (Z.to_nat 10000 <= String.length head)%nat ->
  basicMalwareCheck (head +:+ rest) = basicMalwareCheck head.
Proof.
  intros Hlen. unfold basicMalwareCheck. f_equal.
  unfold slice. rewrite length_append. generalize dependent (Z.to_nat 10000). intros limit Hlen.
  rewrite !Nat.min_0_l, !Nat.sub_0_r.
  replace (Nat.min (Nat.min (String.length head + String.length rest) limit)
             (String.length head + String.length rest)) with limit by lia.
  replace (Nat.min (Nat.min (String.length head) limit) (String.length head)) with limit by lia.
  by rewrite substring_prefix.
Qed.

Lemma basicMalwareCheck_reads_a_prefix_only_witness :
  basicMalwareCheck (padding (Z.to_nat 10000) +:+ "/JavaScript")
  = basicMalwareCheck (padding (Z.to_nat 10000)).
Proof.
  apply (basicMalwareCheck_reads_a_prefix_only (padding (Z.to_nat 10000)) "/JavaScript").
  apply Nat.leb_le. vm_compute. reflexivity.
Defined.

End Screening.

(** ** Parsing a file and extracting pages *)

Section Parsing.

Import PdfParser.

(** What a successful [parseFile] went through and what it returns. *)
Lemma parseFile_success_inv (w : World) (cfg : Config) (filePath : string) :
  success (parseFile w cfg filePath) = true ->
  (c_safetyChecks cfg = true -> isSafe (SafetyManager.validateFile w false filePath) = true) /\
  exists buffer options out,
    readFileSync w filePath = Ok buffer /\
    pdfParse w buffer options = Ok out /\
    errors (parseFile w cfg filePath) = [] /\
    exists md,
      data (parseFile w cfg filePath)
      = Some {| text := pp_text out;
                pages := if c_includePageInfo cfg then Some (extractPageInfo out) else None;
                metadata := md;
                totalPages := numpages out |}.
Proof.
  unfold parseFile. set (options := {| opt_password := _; opt_max := _ |}).
  assert (forall safetyResult,
             match safetyResult with
             | Some {| isSafe := false |} => False
             | _ => True
             end ->
             (c_safetyChecks cfg = true ->
              safetyResult = Some (SafetyManager.validateFile w false filePath)) ->
             c_safetyChecks cfg = true ->
             isSafe (SafetyManager.validateFile w false filePath) = true) as Hsafe.
  { intros sr Hsr Heq Hon. specialize (Heq Hon). subst sr.
    by destruct (SafetyManager.validateFile w false filePath) as [[|] ? ? ?]. }
  destruct (c_safetyChecks cfg) eqn:Ec.
  - destruct (SafetyManager.validateFile w false filePath) as [[|] iss h sz] eqn:Ev; simpl;
      [|done].
    destruct (readFileSync w filePath) as [buffer|m]; simpl; [|done].
    destruct (pdfParse w buffer options) as [out|m] eqn:Ep; simpl; [|done].
    intros _. split; [done|]. exists buffer, options, out. repeat split; try done. by eexists.
  - destruct (readFileSync w filePath) as [buffer|m]; simpl; [|done].
    destruct (pdfParse w buffer options) as [out|m] eqn:Ep; simpl; [|done].
    intros _. split; [done|]. exists buffer, options, out. repeat split; try done. by eexists.
Qed.

Lemma validateFile_unsafe_has_issue (w : World) (generationMode : bool) (filePath : string) :
  isSafe (SafetyManager.validateFile w generationMode filePath) = false ->
  issues (SafetyManager.validateFile w generationMode filePath) <> [].
Proof.
  unfold SafetyManager.validateFile.
  destruct (existsSync w filePath); simpl; [|done].
  destruct (statSync_size w filePath); simpl; [|intros _ H; by apply app_eq_nil in H as [_ ?]].
  destruct (readFileSync w filePath); simpl;
    [|intros _ H; by apply app_eq_nil in H as [_ ?]].
  intros H Hnil. rewrite Hnil in H. done.
Qed.

(** X8: [parseFile] succeeds exactly when it returns data.  A failure carries
    no data, no processing time and at least one error message; a success
    carries no error, the text and the page count pdf-parse reported, and,
    when the safety checks are on (the default), was preceded by a
    validation of the file that found it safe. *)
Theorem parseFile_success_or_errors (w : World) (cfg : Config) (filePath : string) :
  (success (parseFile w cfg filePath) = true <-> is_Some (data (parseFile w cfg filePath))) /\
  (success (parseFile w cfg filePath) = false ->
   errors (parseFile w cfg filePath) <> [] /\
   data (parseFile w cfg filePath) = None /\
   processingTime (parseFile w cfg filePath) = None) /\
  (success (parseFile w cfg filePath) = true ->
   errors (parseFile w cfg filePath) = [] /\
   (c_safetyChecks cfg = true ->
    isSafe (SafetyManager.validateFile w false filePath) = true) /\
   exists buffer options out d,
     readFileSync w filePath = Ok buffer /\ pdfParse w buffer options = Ok out /\
     data (parseFile w cfg filePath) = Some d /\
     text d = pp_text out /\ totalPages d = numpages out).
Proof.
  split; [|split].
  - split.
    + intros H. apply parseFile_success_inv in H as (_ & b & o & out & _ & _ & _ & md & ->).
      by eexists.
    + unfold parseFile.
      destruct (if c_safetyChecks cfg then _ else _) as [[[|] ? ? ?]|]; simpl;
        try (destruct (bind _ _); simpl); first [done | by intros [? [=]]].
  - unfold parseFile.
    pose proof (validateFile_unsafe_has_issue w false filePath) as Hissue.
    destruct (c_safetyChecks cfg).
    + destruct (SafetyManager.validateFile w false filePath) as [[|] iss h sz]; simpl in *.
      * by destruct (bind _ _).
      * intros _. split; [by apply Hissue | done].
    + by destruct (bind _ _).
  - intros H. apply parseFile_success_inv in H as (Hs & b & o & out & Hr & Hp & He & md & Hd).
    split; [done|]. split; [done|]. exists b, o, out. eexists. by repeat split.
Qed.

Lemma omap_none {A B} (l : list A) : omap (fun _ : A => @None B) l = [].
Proof. by induction l. Qed.

Lemma omap_cons_eq {A B} (f : A -> option B) (x : A) (l : list A) :
  omap f (x :: l) = match f x with
                    | Some y => y :: omap f l
                    | None => omap f l
                    end.
Proof. done. Qed.

Lemma omap_ext_elem {A B} (f g : A -> option B) (l : list A) :
  (forall x, x ∈ l -> f x = g x) -> omap f l = omap g l.
Proof.
  induction l as [|x l IH]; intros H; csimpl; [done|].
  rewrite (H x) by left. rewrite IH; [done|]. intros y Hy. apply H. by right.
Qed.

Lemma filter_ext_elem {A} (P Q : A -> Prop) `{forall x, Decision (P x)}
    `{forall x, Decision (Q x)} (l : list A) :
  (forall x, x ∈ l -> P x <-> Q x) -> filter P l = filter Q l.
Proof.
  induction l as [|x l IH]; intros Hext; [done|].
  rewrite !filter_cons.
  assert (filter P l = filter Q l) as -> by (apply IH; intros y Hy; apply Hext; by right).
  pose proof (Hext x ltac:(left)) as Hx.
  destruct (decide (P x)), (decide (Q x)); tauto.
Qed.

Lemma find_not_found (n : Z) (ps : list PageInfo) :
  (forall p, p ∈ ps -> pageNumber p <> n) -> find (fun p => pageNumber p =? n) ps = None.
Proof.
  induction ps as [|p ps IH]; intros H; simpl; [done|].
  destruct (Z.eqb_spec (pageNumber p) n) as [E|_]; [by apply H in E; [|left]|].
  apply IH. intros q Hq. apply H. by right.
Qed.

(** Looking up ascending page numbers in pages numbered in ascending order
    selects the pages whose number is asked for, in the order of the pages. *)
Lemma select_ascending (ps : list PageInfo) (nums : list Z) :
  strictly_ascending (map pageNumber ps) = true -> strictly_ascending nums = true ->
  omap (fun n => find (fun p => pageNumber p =? n) ps) nums
  = filter (fun p => pageNumber p ∈ nums) ps.
Proof.
  revert nums. induction ps as [|p ps IHps]; intros nums Hps Hnums.
  { simpl. apply omap_none. }
  change (map pageNumber (p :: ps)) with (pageNumber p :: map pageNumber ps) in Hps.
  apply ascending_cons in Hps as [Hlater Hps].
  rewrite Forall_forall in Hlater.
  assert (forall q, q ∈ ps -> pageNumber p < pageNumber q) as Hafter.
  { intros q Hq. apply Hlater, list_elem_of_fmap. by exists q. }
  induction nums as [|n rest IHnums].
  { simpl. symmetry. rewrite (filter_ext_elem _ (fun _ => False)).
    - clear. induction (p :: ps) as [|x l IH]; [done|]. rewrite filter_cons.
      by destruct (decide False).
    - intros x _. split; [intros H; by apply elem_of_nil in H | done]. }
  apply ascending_cons in Hnums as [Hrest Hnums]. rewrite Forall_forall in Hrest.
  destruct (Z.lt_trichotomy n (pageNumber p)) as [Hlt|[Heq|Hgt]].
  - (* no page has the number [n] *)
    rewrite omap_cons_eq.
    rewrite find_not_found.
    2:{ intros q [->|Hq]%elem_of_cons; [lia|]. specialize (Hafter q Hq). lia. }
    rewrite IHnums by done. apply filter_ext_elem.
    intros q Hq. rewrite elem_of_cons. split; [by right|]. intros [E|?]; [|done].
    apply elem_of_cons in Hq as [->|Hq]; [lia|]. specialize (Hafter q Hq). lia.
  - (* the first page is the one asked for first *)
    subst n. rewrite omap_cons_eq. simpl find. rewrite Z.eqb_refl.
    rewrite (omap_ext_elem _ (fun n => find (fun q => pageNumber q =? n) ps)).
    2:{ intros m Hm. simpl. specialize (Hrest m Hm).
        destruct (Z.eqb_spec (pageNumber p) m); [lia | done]. }
    rewrite IHps by done. rewrite filter_cons.
    destruct (decide (pageNumber p ∈ pageNumber p :: rest)) as [_|Hno];
      [|exfalso; apply Hno; left].
    f_equal. apply filter_ext_elem. intros q Hq. rewrite elem_of_cons.
    split; [by right|]. intros [E|?]; [|done]. specialize (Hafter q Hq). lia.
  - (* the first page is not asked for *)
    assert (forall m, m ∈ n :: rest -> pageNumber p < m) as Hall.
    { intros m [->|Hm]%elem_of_cons; [lia|]. specialize (Hrest m Hm). lia. }
    rewrite (omap_ext_elem _ (fun n => find (fun q => pageNumber q =? n) ps)).
    2:{ intros m Hm. simpl. specialize (Hall m Hm).
        destruct (Z.eqb_spec (pageNumber p) m); [lia | done]. }
    rewrite IHps; [|done | by apply ascending_cons; rewrite Forall_forall].
    rewrite filter_cons.
    destruct (decide (pageNumber p ∈ n :: rest)) as [Hin|_]; [|done].
    specialize (Hall _ Hin). lia.
Qed.

Lemma imap_numbers_ascending (cs : list string) (start : Z) :
  strictly_ascending
    (map pageNumber
       (imap (fun i c => {| pageNumber := Z.of_nat i + start; content := c |}) cs)) = true.
Proof.
  revert start. induction cs as [|c cs IH]; intros start; [done|].
  rewrite imap_cons. simpl map. apply ascending_cons. split.
  - apply Forall_forall. intros n Hn. apply list_elem_of_fmap in Hn as (q & -> & Hq).
    apply elem_of_lookup_imap in Hq as (i & c' & -> & _). simpl. lia.
  - rewrite (imap_ext _ (fun i c' => {| pageNumber := Z.of_nat i + (start + 1);
                                        content := c' |})); [apply IH|].
    intros i c' _. simpl. f_equal. lia.
Qed.

(** X9: with page information on, [extractPages] fails exactly when
    [parseFile] does; otherwise it returns the contents of the pages whose
    number the range selects, each once and in the order of the document,
    separated by blank lines: the order of the range does not show. *)
Theorem extractPages_selects_in_document_order
    (w : World) (cfg : Config) (filePath pageRange : string) :
  c_includePageInfo cfg = true ->
  (success (parseFile w cfg filePath) = false ->
   extractPages w cfg filePath pageRange = Throw "Failed to parse PDF") /\
  (success (parseFile w cfg filePath) = true ->
   exists d ps,
     data (parseFile w cfg filePath) = Some d /\ pages d = Some ps /\
     extractPages w cfg filePath pageRange
     = Ok (join (nl +:+ nl)
             (map content
                (filter (fun p => pageNumber p ∈ parsePageRange pageRange (totalPages d)) ps)))).
Proof.
  intros Hon. split.
  - unfold extractPages. by intros ->.
  - intros Hs. unfold extractPages. rewrite Hs.
    apply parseFile_success_inv in Hs as (_ & b & o & out & _ & _ & _ & md & ->).
    rewrite Hon. eexists _, _. split; [done|]. split; [done|]. simpl. do 3 f_equal.
    apply select_ascending; [|apply parsePageRange_ascending].
    unfold extractPageInfo. apply imap_numbers_ascending.
Qed.

Lemma extractPages_selects_in_document_order_witness :
  extractPages Sample.world (constructor page_info_config) "in/a.pdf" "2,1" = Ok
    (join (nl +:+ nl) ["first page "; "second page"]).
Proof.
  destruct (proj2 (extractPages_selects_in_document_order Sample.world
                     (constructor page_info_config) "in/a.pdf" "2,1" eq_refl) eq_refl)
    as (d & ps & Hd & Hps & ->).
  vm_compute in Hd. injection Hd as <-. vm_compute in Hps. injection Hps as <-.
  reflexivity.
Defined.

End Parsing.

(** ** Escaping for HTML *)

Section Escaping.

Import PdfParser.

Lemma string_app_assoc (a b c : string) : (a +:+ b) +:+ c = a +:+ (b +:+ c).
Proof.
  induction a as [|e a IH]; [done|].
  change (String e ((a +:+ b) +:+ c) = String e (a +:+ (b +:+ c))). by rewrite IH.
Qed.

Lemma replace_char_app (c : ascii) (replacement a b : string) :
  replace_char c replacement (a +:+ b)
  = replace_char c replacement a +:+ replace_char c replacement b.
Proof.
  induction a as [|d a IH]; [done|].
  change (String d a +:+ b) with (String d (a +:+ b)). simpl.
  destruct (Ascii.eqb d c); rewrite IH; [|done]. by rewrite string_app_assoc.
Qed.

(** The five passes amount to one pass that rewrites each character. *)
Lemma escapeHtml_cons (c : ascii) (s : string) :
  escapeHtml (String c s) = escapeHtml (String c EmptyString) +:+ escapeHtml s.
Proof.
  change (String c s) with (String c EmptyString +:+ s).
  unfold escapeHtml. by rewrite !replace_char_app.
Qed.

(** What one character becomes. *)
Lemma escapeHtml_char (c : ascii) :
  (c = "&"%char /\ escapeHtml (String c EmptyString) = "&amp;") \/
  (c = "<"%char /\ escapeHtml (String c EmptyString) = "&lt;") \/
  (c = ">"%char /\ escapeHtml (String c EmptyString) = "&gt;") \/
  (c = double_quote /\ escapeHtml (String c EmptyString) = "&quot;") \/
  (c = "'"%char /\ escapeHtml (String c EmptyString) = "&#39;") \/
  (~ In c ["&"; "<"; ">"; double_quote; "'"]%char /\
   escapeHtml (String c EmptyString) = String c EmptyString).
Proof.
  destruct c as [[] [] [] [] [] [] [] []]; vm_compute;
    first [ by left | by right; left | by right; right; left
          | by right; right; right; left | by right; right; right; right; left
          | right; right; right; right; right; split; [|done];
            intros [H|[H|[H|[H|[H|[]]]]]]; discriminate H ].
Qed.

(** X10: the result of [escapeHtml] holds no angle bracket and no quote,
    single or double: the escaped text cannot open or close a tag or an
    attribute value. *)
Theorem escapeHtml_leaves_no_markup (text : string) :
  forall c, In c ["<"; ">"; double_quote; "'"]%char ->
            ~ In c (list_ascii_of_string (escapeHtml text)).
Proof.
  intros c Hc. induction text as [|d text IH]; [intros []|].
  rewrite escapeHtml_cons, chars_app, in_app_iff. intros [H|H]; [|done].
  destruct (escapeHtml_char d) as [[_ E]|[[_ E]|[[_ E]|[[_ E]|[[_ E]|[Hd E]]]]]];
    rewrite E in H; simpl in H.
  1-5: destruct Hc as [<-|[<-|[<-|[<-|[]]]]];
       repeat (destruct H as [H|H]; [discriminate H|]); done.
  destruct H as [->|[]]. apply Hd. simpl in Hc. simpl. tauto.
Qed.

Lemma escapeHtml_leaves_no_markup_witness :
  In "<"%char ["<"; ">"; double_quote; "'"]%char /\
  ~ In "<"%char (list_ascii_of_string (escapeHtml "<a href='x'>R&D</a>")).
Proof.
  split; [by left | apply (escapeHtml_leaves_no_markup "<a href='x'>R&D</a>"); by left].
Defined.

(** X11: [escapeHtml] loses no information: two texts with the same escaped
    form are the same text. *)
Theorem escapeHtml_injective (a b : string) :
  escapeHtml a = escapeHtml b -> a = b.
Proof.
  revert b. induction a as [|c a IH]; intros [|d b].
  - done.
  - rewrite escapeHtml_cons.
    destruct (escapeHtml_char d) as [[_ E]|[[_ E]|[[_ E]|[[_ E]|[[_ E]|[_ E]]]]]];
      rewrite E; discriminate.
  - rewrite escapeHtml_cons.
    destruct (escapeHtml_char c) as [[_ E]|[[_ E]|[[_ E]|[[_ E]|[[_ E]|[_ E]]]]]];
      rewrite E; discriminate.
  - rewrite (escapeHtml_cons c a), (escapeHtml_cons d b).
    destruct (escapeHtml_char c) as [[-> E]|[[-> E]|[[-> E]|[[-> E]|[[-> E]|[Hc E]]]]]];
      destruct (escapeHtml_char d) as [[-> F]|[[-> F]|[[-> F]|[[-> F]|[[-> F]|[Hd F]]]]]];
      rewrite E, ?F; simpl; intros H;
      try discriminate H;
      try (injection H as H; f_equal; by apply IH);
      try (injection H as Hh H; exfalso; first [apply Hc | apply Hd]; subst; simpl; tauto).
    injection H as -> H. f_equal. by apply IH.
Qed.

Lemma escapeHtml_injective_witness :
  escapeHtml "R&D <x>" = escapeHtml "R&D <x>" /\ "R&D <x>" = "R&D <x>".
Proof.
  split; [reflexivity | apply (escapeHtml_injective "R&D <x>" "R&D <x>"); reflexivity].
Defined.

Example escapeHtml_script :
  escapeHtml "<a href='x'>R&D</a>" = "&lt;a href=&#39;x&#39;&gt;R&amp;D&lt;/a&gt;".
Proof. reflexivity. Qed.

End Escaping.

(** ** What the modifier does to a document *)

Section ModifierInvariants.

Import PDFModifier.



















Lemma run_edits_count {A} (step : PDFDocument -> A -> PDFDocument * bool)
    (items : list A) (d : PDFDocument) :
  (snd (run_edits step items d) <= List.length items)%nat.
Proof.
  unfold run_edits.
  assert (forall st, (snd (fold_left
                             (fun st item =>
                                let '(d', counted) := step (fst st) item in
                                (d', if counted then S (snd st) else snd st))
                             items st)
                      <= snd st + List.length items)%nat) as H.
  { induction items as [|a items IH]; intros st; simpl; [lia|].
    destruct (step (fst st) a) as [d' []]; etrans; [apply IH| |apply IH|]; simpl; lia. }
  apply (H (d, O)).
Qed.

(** X13: no count of a result exceeds the number of edits of its kind that
    were requested, and [modificationsApplied] is the sum of the four
    counts, on success and on failure. *)
Theorem modifyPdf_counts_are_bounded (w : World) (o : ModifyOptions) :
  (formsFilled (result (modifyPdf w o)) <= List.length (formData o))%nat /\
  (signaturesAdded (result (modifyPdf w o)) <= List.length (signatures o))%nat /\
  (textInsertions (result (modifyPdf w o)) <= List.length (o_textInsertions o))%nat /\
  (imageInsertions (result (modifyPdf w o)) <= List.length (o_imageInsertions o))%nat /\
  modificationsApplied (result (modifyPdf w o))
  = (formsFilled (result (modifyPdf w o)) + signaturesAdded (result (modifyPdf w o))
     + textInsertions (result (modifyPdf w o)) + imageInsertions (result (modifyPdf w o)))%nat.
Proof.
  unfold modifyPdf, modifyWithPdfLib.
  destruct (readFileSync w (inputPath o)) as [bytes|]; simpl; [|repeat split; lia].
  destruct (PDFDocument_load w bytes) as [pdfDoc|]; simpl; [|repeat split; lia].
  rewrite apply_edits_unfold. simpl.
  destruct (save_and_write w (o_outputPath o) _); simpl; [|repeat split; lia].
  repeat split; try apply run_edits_count. 
Qed.

Lemma apply_edits_kinds (w : World) (o : ModifyOptions) (pdfDoc : PDFDocument) :
  getPages (fst (fillForms w pdfDoc (formData o))) = getPages pdfDoc /\
  embedded (fst (fillForms w pdfDoc (formData o))) = embedded pdfDoc /\
  getFields (fst (apply_edits w o pdfDoc)) = getFields (fst (fillForms w pdfDoc (formData o))).
Proof.
  assert (forall {A} (step : PDFDocument -> A -> PDFDocument * bool) (P : PDFDocument -> Prop)
                 (items : list A) (d : PDFDocument),
             (forall d' a, P d' -> P (fst (step d' a))) -> P d ->
             P (fst (run_edits step items d))) as Hinv.
  { intros A step P items d Hstep. unfold run_edits. generalize O. revert d.
    induction items as [|a items IH]; intros d n Hd; simpl; [done|].
    specialize (Hstep d a Hd). destruct (step d a) as [d1 c]. by apply IH. }
  assert (forall d i op d', draw d i op = Ok d' -> getFields d' = getFields d) as Hdraw.
  { intros d i op d'. unfold draw. destruct (getPages d !! i); [|done]. by intros [= <-]. }
  assert (forall d i t p s c d', drawText w d i t p s c = Ok d' -> getFields d' = getFields d)
    as HdrawText.
  { intros d i t p s c d'. unfold drawText. destruct (getPages d !! i); [|done].
    destruct (rgb c); simpl; [|done]. destruct (encodable w t); simpl; [|done]. apply Hdraw. }
  assert (forall fmt d bytes d' image,
             embedImage w fmt d bytes = Ok (d', image) -> getFields d' = getFields d) as Hembed.
  { intros fmt d bytes d' image. unfold embedImage.
    destruct (match fmt with Png => _ | Jpg => _ end); simpl; [|done]. by intros [= <- _]. }
  split; [|split].
  - apply (Hinv _ (fill_step w) (fun d => getPages d = getPages pdfDoc)); [|done].
    intros d item Hd. unfold fill_step. by destruct (fill_field _ _ _) as [[?|]|].
  - apply (Hinv _ (fill_step w) (fun d => embedded d = embedded pdfDoc)); [|done].
    intros d item Hd. unfold fill_step. by destruct (fill_field _ _ _) as [[?|]|].
  - rewrite apply_edits_unfold. simpl.
    set (filled := fst (fillForms w pdfDoc (formData o))).
    apply (Hinv _ (image_step w) (fun d => getFields d = getFields filled)).
    { intros d item Hd. unfold image_step. destruct (target_page d _); [|done].
      destruct (readFileSync w _); [|done]. destruct (image_format_of _) as [fmt|]; [|done].
      destruct (embedImage w fmt d _) as [[d1 image]|] eqn:E; simpl; [|done].
      destruct (draw d1 _ _) as [d2|] eqn:E2; simpl; [|done].
      apply Hdraw in E2. apply Hembed in E. congruence. }
    apply (Hinv _ (text_step w) (fun d => getFields d = getFields filled)).
    { intros d item Hd. unfold text_step. destruct (target_page d _); [|done].
      destruct (drawText _ _ _ _ _ _ _) eqn:E; simpl; [|done].
      apply HdrawText in E. congruence. }
    apply (Hinv _ (signature_step w) (fun d => getFields d = getFields filled)); [|done].
    intros d s Hd. unfold signature_step, signature_image.
    destruct (truthy_string (sig_imagePath s)) as [path|].
    + assert (forall fmt, getFields
                 (fst match bind (readFileSync w path) (embedImage w fmt d) with
                      | Ok (d1, image) =>
                          match draw d1 0 (DrawImage image (sig_position s)) with
                          | Ok d2 => (d2, true)
                          | Throw _ => (d1, false)
                          end
                      | Throw _ => (d, false)
                      end) = getFields filled) as Himage.
      { intros fmt. destruct (readFileSync w path) as [bytes|]; simpl; [|done].
        destruct (embedImage w fmt d bytes) as [[d1 image]|] eqn:E; [|done].
        apply Hembed in E. destruct (draw d1 0 _) as [d2|] eqn:E2; simpl; [|congruence].
        apply Hdraw in E2. congruence. }
      destruct (ends_with ".png" _); [apply Himage|].
      destruct (_ || _); [apply Himage | done].
    + destruct (truthy_string (sig_text s)); [|done].
      destruct (drawText _ _ _ _ _ _ _) eqn:E; simpl; [|done].
      apply HdrawText in E. congruence.
Qed.

(** X14: filling forms draws nothing and embeds nothing, and what signatures,
    texts and images do leaves the fields as the form filling left them. *)
Theorem forms_and_drawings_are_separate (w : World) (o : ModifyOptions) (pdfDoc : PDFDocument) :
  getPages (fst (fillForms w pdfDoc (formData o))) = getPages pdfDoc /\
  embedded (fst (fillForms w pdfDoc (formData o))) = embedded pdfDoc /\
  getFields (fst (apply_edits w o pdfDoc)) = getFields (fst (fillForms w pdfDoc (formData o))).
Proof.
  destruct (apply_edits_kinds w o pdfDoc) as (Hpages & Hembedded & Hfields).
  split; [exact Hpages|]. split; [exact Hembedded | exact Hfields].
Qed.

End ModifierInvariants.

(** ** Single edits *)

Section SingleEdits.

Import PDFModifier Cli.

(** X15: a form item that is applied changes the content of the first field
    carrying its name, following the class of that field, and nothing else:
    the fields before it have other names and are untouched, as are all the
    fields after it, even those of the same name. *)
Theorem fill_field_changes_the_first_match
    (w : World) (fields fields' : list PDFField) (item : FormFillData) :
  fill_field w fields item = Ok (Some fields') ->
  exists before f after,
    fields = (before ++ f :: after)%list /\
    Forall (fun g => getName g <> fieldName item) before /\
    getName f = fieldName item /\
    fields' = (before ++ set_content f
                 match constructor_name f with
                 | PDFTextField => TextContent (to_String w (fieldValue item))
                 | PDFCheckBox => Checked (value_truthy (fieldValue item))
                 | PDFRadioGroup => Selected (to_String w (fieldValue item))
                 | PDFOtherField => field_content f
                 end :: after)%list.
Proof.
  revert fields'. induction fields as [|f rest IH]; intros fields'; simpl; [done|].
  destruct (String.eqb_spec (getName f) (fieldName item)) as [Hname|Hname].
  - intros H. exists [], f, rest. split; [done|]. split; [constructor|]. split; [done|].
    simpl. destruct (constructor_name f); simpl in H; try done.
    + unfold setText in H. destruct (getMaxLength f) as [m|];
        [destruct (m <? String.length _)%nat|]; simpl in H; try done; by injection H as <-.
    + by injection H as <-.
    + unfold select in H. destruct (existsb _ _); simpl in H; [|done]. by injection H as <-.
  - destruct (fill_field w rest item) as [[fs|]|]; simpl; try done.
    intros [= <-]. destruct (IH fs eq_refl) as (before & g & after & -> & Hb & Hg & ->).
    exists (f :: before), g, after. repeat split; try done. by constructor.
Qed.

Lemma fill_field_changes_the_first_match_witness :
  exists before f after,
    [Sample.name_field; Sample.agree_field; Sample.agree_field]
    = (before ++ f :: after)%list /\
    Forall (fun g => getName g <> "agree") before /\
    getName f = "agree" /\
    [Sample.name_field; set_content Sample.agree_field (Checked true); Sample.agree_field]
    = (before ++ set_content f
         match constructor_name f with
         | PDFTextField => TextContent "yes"
         | PDFCheckBox => Checked true
         | PDFRadioGroup => Selected "yes"
         | PDFOtherField => field_content f
         end :: after)%list.
Proof.
  apply (fill_field_changes_the_first_match Sample.world
           [Sample.name_field; Sample.agree_field; Sample.agree_field]
           [Sample.name_field; set_content Sample.agree_field (Checked true); Sample.agree_field]
           {| fieldName := "agree"; fieldValue := VString "yes"; fieldType := None |}).
  reflexivity.
Defined.

(** X16: a check box filled from a [--fill-form name:value] flag is checked
    by every value that is not empty once trimmed, [false] and [0] included,
    and unchecked by the empty value only. *)
Theorem fill_form_flag_checks_the_box
    (w : World) (formItem : string) (item : FormFillData) (f : PDFField)
    (rest : list PDFField) :
  form_item formItem = Some item ->
  getName f = fieldName item ->
  constructor_name f = PDFCheckBox ->
  exists value,
    fieldValue item = VString value /\
    fill_field w (f :: rest) item
    = Ok (Some (set_content f (Checked (negb (String.eqb value EmptyString))) :: rest)).
Proof.
  unfold form_item. destruct (includes ":" formItem); [|done].
  destruct (split ":" formItem) as [|name valueParts]; [done|].
  intros [= <-] Hname Hclass. eexists. split; [reflexivity|].
  simpl in *. rewrite Hname, String.eqb_refl, Hclass. done.
Qed.

Lemma fill_form_flag_checks_the_box_witness :
  exists value,
    VString "false" = VString value /\
    fill_field Sample.world [Sample.agree_field]
      {| fieldName := "agree"; fieldValue := VString "false"; fieldType := None |}
    = Ok (Some [set_content Sample.agree_field (Checked (negb (String.eqb value EmptyString)))]).
Proof.
  apply (fill_form_flag_checks_the_box Sample.world "agree: false"
           {| fieldName := "agree"; fieldValue := VString "false"; fieldType := None |}
           Sample.agree_field []); reflexivity.
Defined.

Lemma or_default_parseInt (s : string) (d : number) :
  default 0 (parseInt s) = 0 -> or_default (Some (parseInt_number s)) d = or_default None d.
Proof.
  unfold parseInt_number. destruct (parseInt s) as [z|]; simpl; [|done]. by intros ->.
Qed.

(** X17: a [--text-page] or [--font-size] that is not a number, or is 0,
    counts as not given: the text goes to the first page in size 12. *)
Theorem unparsable_page_and_size_fall_back
    (w : World) (d : PDFDocument) (o : Options) (position : list number) (t : string) :
  default 0 (parseInt (textPage o)) = 0 ->
  default 0 (parseInt (fontSize o)) = 0 ->
  text_step w d (cli_text o position t) = text_step w d (plain_text t position) /\
  target_page d (ti_pageNumber (cli_text o position t))
  = (if getPages d is [] then None else Some O).
Proof.
  intros Hpage Hsize. unfold text_step, target_page, cli_text, plain_text.
  cbn [ti_pageNumber ti_fontSize ti_text ti_position ti_color].
  rewrite (or_default_parseInt _ _ Hpage), (or_default_parseInt _ _ Hsize).
  split; [done|]. change (array_index (or_default None (of_Z 0))) with (Some O).
  by destruct (getPages d).
Qed.

Lemma unparsable_page_and_size_fall_back_witness :
  text_step Sample.world (Sample.blank 2)
    (cli_text (with_add_text "PAID"
                 {| pattern := "*.pdf"; addSignature := None;
                    signaturePosition := "400,700,500,750"; fillForm := FillFormArray [];
                    addText := None; textPosition := "100,100"; textPage := "last";
                    fontSize := "big"; allPages := false; config := None; template := None;
                    previewOnly := false; parallel := false |})
       [of_Z 100; of_Z 100] "PAID")
  = text_step Sample.world (Sample.blank 2) (plain_text "PAID" [of_Z 100; of_Z 100]).
Proof.
  refine (proj1 (unparsable_page_and_size_fall_back Sample.world (Sample.blank 2) _ _ _ _ _));
    reflexivity.
Defined.

(** X18: a signature whose image path has another extension than [.png],
    [.jpg] or [.jpeg] adds nothing and is not counted; its text, if it has
    one, is not used in its place. *)
Theorem signature_with_other_extension_is_dropped
    (w : World) (d : PDFDocument) (signature : SignatureOptions) (path : string) :
  truthy_string (sig_imagePath signature) = Some path ->
  image_format_of path = None ->
  signature_step w d signature = (d, false).
Proof.
  intros Hpath. unfold image_format_of, signature_step. rewrite Hpath.
  destruct (ends_with ".png" _); [done|]. by destruct (_ || _).
Qed.

Lemma signature_with_other_extension_is_dropped_witness :
  signature_step Sample.world (Sample.blank 1)
    {| sig_position := [of_Z 0; of_Z 0; of_Z 10; of_Z 10]; sig_imagePath := Some "sig.gif";
       sig_text := Some "J. Doe"; sig_fontSize := None; sig_color := None |}
  = (Sample.blank 1, false).
Proof.
  apply (signature_with_other_extension_is_dropped Sample.world (Sample.blank 1) _ "sig.gif");
    reflexivity.
Defined.

End SingleEdits.

(** ** Templates and convenience methods on a document *)

Section WholeRequests.

Import PDFModifier Cli.








End WholeRequests.

(** ** The command line of [modify] and the files of a batch *)

Section CommandLine.

Import PDFModifier Cli.

Lemma split_at_first (sep : ascii) (name rest : string) :
  ~ In sep (list_ascii_of_string name) ->
  split sep (name +:+ String sep rest) = name :: split sep rest.
Proof.
  induction name as [|c name IH]; simpl; intros Hname.
  - by rewrite Ascii.eqb_refl.
  - destruct (Ascii.eqb_spec c sep) as [->|Hc]; [tauto|].
    rewrite IH by tauto. done.
Qed.

Lemma form_item_none (formItem : string) :
  form_item formItem = None <-> ~ In ":"%char (list_ascii_of_string formItem).
Proof.
  unfold form_item. rewrite <- includes_char.
  destruct (includes ":" formItem).
  - pose proof (split_nonempty ":" formItem).
    destruct (split ":" formItem); [done|]. split; [done | tauto].
  - split; [discriminate | done].
Qed.

(** X21: a [--fill-form] item is cut at its first colon: what stands before
    it, trimmed, is the field name, and all that follows, further colons
    included, trimmed, is the value. *)
Theorem form_item_splits_at_first_colon (name rest : string) :
  ~ In ":"%char (list_ascii_of_string name) ->
  form_item (name +:+ ":" +:+ rest)
  = Some {| fieldName := trim name; fieldValue := VString (trim rest); fieldType := None |}.
Proof.
  intros Hname. unfold form_item.
  change (name +:+ ":" +:+ rest) with (name +:+ String ":" rest).
  assert (includes ":" (name +:+ String ":" rest) = true) as ->.
  { apply includes_char. rewrite chars_app, in_app_iff. right. by left. }
  rewrite split_at_first by done. by rewrite join_split.
Qed.

Lemma form_item_splits_at_first_colon_witness :
  ~ In ":"%char (list_ascii_of_string "site ") /\
  form_item ("site " +:+ ":" +:+ " http://example.org ")
  = Some {| fieldName := "site"; fieldValue := VString "http://example.org";
            fieldType := None |}.
Proof.
  split.
  - simpl. intros [H|[H|[H|[H|[H|[]]]]]]; discriminate H.
  - apply (form_item_splits_at_first_colon "site " " http://example.org ").
    simpl. intros [H|[H|[H|[H|[H|[]]]]]]; discriminate H.
Defined.

(** X22: [modify] ends with status 0 without calling [modifyPdf] in one case
    only: no signature and no text are asked for, and no [--fill-form] item
    holds a colon. *)
Theorem modify_makes_no_call_exactly_without_edits
    (w : World) (input output : string) (o : Options) :
  modify_action w input output o = {| exit_code := 0; call := None |} <->
  truthy_string (addSignature o) = None /\
  truthy_string (addText o) = None /\
  Forall (fun formItem => ~ In ":"%char (list_ascii_of_string formItem))
         (fillFormOptions (fillForm o)).
Proof.
  assert (cli_formData o = [] <->
          Forall (fun formItem => ~ In ":"%char (list_ascii_of_string formItem))
                 (fillFormOptions (fillForm o))) as Hforms.
  { unfold cli_formData. induction (fillFormOptions (fillForm o)) as [|s l IH].
    - split; [constructor | done].
    - rewrite omap_cons_eq, Forall_cons, <- form_item_none, <- IH.
      destruct (form_item s); [|tauto]. split; [done | by intros [? _]]. }
  unfold modify_action, modify_signatures, modify_texts.
  destruct (truthy_string (addSignature o)) as [path|].
  { split; [|by intros [? _]].
    destruct (negb _); simpl; [done|].
    destruct (truthy_string (addText o)); [destruct (negb _)|]; simpl; done. }
  destruct (truthy_string (addText o)) as [t|].
  { split; [|by intros (_ & ? & _)].
    destruct (negb _); simpl; [done|]. rewrite andb_false_r. done. }
  simpl. rewrite andb_true_r, <- Hforms.
  destruct (cli_formData o); simpl; split; try done. by intros (_ & _ & ?).
Qed.

(** X23: with [--add-text], [modify] requires a text position of exactly
    two comma-separated parts.  With any other number of parts it exits with
    status 1 and opens no document, whatever the other options; with two, and
    no signature asked for, it calls [modifyPdf] with that one text, at the
    [parseFloat] values of the parts. *)
Theorem modify_text_position_needs_two_parts
    (w : World) (input output t : string) (o : Options) :
  truthy_string (addText o) = Some t ->
  (List.length (split "," (textPosition o)) <> 2%nat ->
   modify_action w input output o = {| exit_code := 1; call := None |}) /\
  (List.length (split "," (textPosition o)) = 2%nat ->
   truthy_string (addSignature o) = None ->
   call (modify_action w input output o)
   = Some (modifyPdf w {| inputPath := input; o_outputPath := output; signatures := [];
                          formData := cli_formData o;
                          o_textInsertions :=
                            [cli_text o (map (fun x => parseFloat (trim x))
                                           (split "," (textPosition o))) t];
                          o_imageInsertions := [] |})).
Proof.
  intros Ht. unfold modify_action, modify_signatures, modify_texts, positionParts.
  rewrite Ht, !length_map. split.
  - intros Hlen. apply Nat.eqb_neq in Hlen as ->. simpl.
    destruct (truthy_string (addSignature o)); [destruct (negb _)|]; done.
  - intros Hlen Hsig. apply Nat.eqb_eq in Hlen as ->. rewrite Hsig. simpl.
    by rewrite andb_false_r.
Qed.

Lemma modify_text_position_needs_two_parts_witness :
  modify_action Sample.world "in/a.pdf" "out/a.pdf"
    (with_signature "logo.png" "400,700,500,750"
       (with_add_text "DRAFT" (with_parallel false
          {| pattern := "*.pdf"; addSignature := None; signaturePosition := "400,700,500,750";
             fillForm := FillFormArray []; addText := None; textPosition := "100";
             textPage := "0"; fontSize := "12"; allPages := false; config := None;
             template := None; previewOnly := false; parallel := false |})))
  = {| exit_code := 1; call := None |}.
Proof.
  refine (proj1 (modify_text_position_needs_two_parts Sample.world "in/a.pdf" "out/a.pdf"
                   "DRAFT" _ _) _).
  - reflexivity.
  - vm_compute. discriminate.
Defined.


(** X25: a file of a batch that cannot be read or parsed is reported as
    failed, with the error of the read or of the parser as it is, in both
    ways of processing: the all-pages way, where the error is thrown to the
    loop, and the usual way, where [modifyPdf] returns it. *)
Theorem unopenable_file_is_reported_with_its_error
    (w : World) (o : Options) (outputDir file message : string) (m : Modifications) :
  bind (readFileSync w file) (PDFDocument_load w) = Throw message ->
  process_file w o outputDir m file = failed_row (basename w file) (Some message).
Proof.
  intros Hopen. unfold process_file.
  destruct (allPages o && _).
  - unfold applyModificationsAllPages.
    destruct (readFileSync w file) as [bytes|]; simpl in *; [|by injection Hopen as ->].
    rewrite Hopen. done.
  - unfold modifyPdf, modifyWithPdfLib. simpl.
    destruct (readFileSync w file) as [bytes|]; simpl in *; [|by injection Hopen as ->].
    rewrite Hopen. done.
Qed.

Lemma unopenable_file_is_reported_with_its_error_witness :
  process_file Sample.world approval_run "out" (approval_stamp "2024-03-01") "in/b.pdf"
  = failed_row "b.pdf" (Some "Failed to parse PDF document").
Proof.
  apply (unopenable_file_is_reported_with_its_error Sample.world approval_run "out" "in/b.pdf"
           "Failed to parse PDF document" (approval_stamp "2024-03-01")).
  reflexivity.
Defined.

End CommandLine.

(** ** The choice of a PDF engine *)

Section Engines.

Import PdfGenerator.

Variable which : string -> bool.

Lemma cache_sound_new : cache_sound which new_generator.
Proof.
  unfold cache_sound, new_generator. simpl. split; [|split].
  - intros engine found H. by rewrite lookup_empty in H.
  - constructor.
  - intros engine. rewrite lookup_empty. split.
    + by intros ?%elem_of_nil.
    + by intros [? ?].
Qed.

Lemma isEngineAvailable_spec (engine : string) (s : State) :
  cache_sound which s ->
  cache_sound which (snd (isEngineAvailable which engine s)) /\
  fst (isEngineAvailable which engine s) = available which engine.
Proof.
  intros (Hc & Hn & Hl). unfold isEngineAvailable, available.
  destruct (engineCache s !! engine) as [found|] eqn:E.
  - simpl. split; [done|]. destruct (Hc _ _ E) as [-> Hni].
    rewrite bool_decide_eq_false_2 by done. by rewrite orb_false_r.
  - case_bool_decide as Hin; simpl.
    + split; [done|]. by rewrite orb_true_r.
    + split; [|by rewrite orb_false_r]. split; [|split]; simpl.
      * intros e b. rewrite lookup_insert_Some. intros [[<- <-]|[Hne He]]; [done|].
        by apply Hc.
      * apply NoDup_app. split; [done|]. split; [|apply NoDup_singleton].
        intros x Hx ->%list_elem_of_singleton. apply Hl in Hx. rewrite E in Hx.
        by destruct Hx.
      * intros e. rewrite elem_of_app, list_elem_of_singleton, lookup_insert_is_Some, Hl.
        destruct (decide (engine = e)) as [->|Hne]; [tauto|].
        split; [intros [H|H]; [by right | done] | intros [H|[_ H]]; [done | by left]].
Qed.

Lemma first_available_spec (engines : list string) (s : State) :
  cache_sound which s ->
  cache_sound which (snd (first_available which engines s)) /\
  fst (first_available which engines s) = find (available which) engines.
Proof.
  revert s. induction engines as [|engine rest IH]; intros s Hs; simpl; [done|].
  destruct (isEngineAvailable_spec engine s Hs) as [Hs1 Hb].
  destruct (isEngineAvailable which engine s) as [b s1]. simpl in *. subst b.
  destruct (available which engine); [done|]. by apply IH.
Qed.

Lemma selectEngine_spec (engine template : string) (s : State) :
  cache_sound which s ->
  cache_sound which (snd (selectEngine which engine template s)) /\
  fst (selectEngine which engine template s) = chosen_engine which engine template.
Proof.
  intros Hs. unfold selectEngine, chosen_engine.
  assert (forall s1, cache_sound which s1 ->
            let r := match first_available which (preferredEngines template) s1 with
                     | (Some chosen, s2) => (Some chosen, s2)
                     | (None, s2) => first_available which fallbackEngines s2
                     end in
            cache_sound which (snd r) /\
            fst r = match find (available which) (preferredEngines template) with
                    | Some chosen => Some chosen
                    | None => find (available which) fallbackEngines
                    end) as Hrest.
  { intros s1 Hs1. destruct (first_available_spec (preferredEngines template) s1 Hs1) as [H2 Hf].
    destruct (first_available which (preferredEngines template) s1) as [[e|] s2];
      cbn [fst snd] in *; rewrite <- Hf; [done|].
    exact (first_available_spec fallbackEngines s2 H2). }
  destruct (String.eqb engine "auto"); simpl; [by apply Hrest|].
  destruct (isEngineAvailable_spec engine s Hs) as [Hs1 Hb].
  destruct (isEngineAvailable which engine s) as [b s1]. simpl in *. subst b.
  destruct (available which engine); [done|]. by apply Hrest.
Qed.

Lemma preferred_are_fallback (template engine : string) :
  In engine (preferredEngines template) -> In engine fallbackEngines.
Proof.
  unfold preferredEngines, templateConfigs, fallbackEngines. cbn [find fst snd].
  repeat (destruct (String.eqb _ template); [simpl; tauto|]). simpl. tauto.
Qed.

Lemma fallback_installed (engine : string) :
  In engine fallbackEngines -> available which engine = which engine.
Proof.
  unfold available.
  intros [<-|[<-|[<-|[<-|[]]]]]; (rewrite bool_decide_eq_false_2; [apply orb_false_r|]);
    unfold inherited_keys; intros H;
    repeat (apply elem_of_cons in H as [H|H]; [discriminate H|]); by apply elem_of_nil in H.
Qed.

Lemma generate_all_sound (requests : list (string * string)) (s : State) :
  cache_sound which s -> cache_sound which (generate_all which requests s).
Proof.
  revert s. induction requests as [|r requests IH]; intros s Hs; [done|].
  simpl. apply IH. by apply selectEngine_spec.
Qed.

(** X26: the cache does not change the choice: whatever earlier lookups
    left in the cache, [selectEngine] chooses what a new generator would
    choose. *)
Theorem engine_cache_is_transparent (engine template : string) (s : State) :
  cache_sound which s ->
  fst (selectEngine which engine template s)
  = fst (selectEngine which engine template new_generator).
Proof.
  intros Hs.
  rewrite (proj2 (selectEngine_spec engine template s Hs)).
  by rewrite (proj2 (selectEngine_spec engine template new_generator cache_sound_new)).
Qed.

(** X27: the engine [selectEngine] returns is one that [which] finds, the
    requested engine apart when it is named like an inherited property. *)
Theorem selectEngine_returns_an_installed_engine (engine template chosen : string) (s : State) :
  cache_sound which s ->
  fst (selectEngine which engine template s) = Some chosen ->
  which chosen = true \/ (chosen = engine /\ chosen ∈ inherited_keys).
Proof.
  intros Hs. rewrite (proj2 (selectEngine_spec engine template s Hs)).
  unfold chosen_engine.
  assert (forall engines, (forall e, In e engines -> In e fallbackEngines) ->
            find (available which) engines = Some chosen -> which chosen = true) as Hfind.
  { intros engines Hsub [Hin Ha]%find_some. by rewrite fallback_installed in Ha by auto. }
  destruct (negb (String.eqb engine "auto") && available which engine) eqn:E.
  - intros [= <-]. apply andb_true_iff in E as [_ E]. unfold available in E.
    apply orb_true_iff in E as [E|E]; [by left | right]. split; [done|].
    by apply bool_decide_eq_true in E.
  - destruct (find (available which) (preferredEngines template)) as [e|] eqn:Ep.
    + intros [= ->]. left. apply (Hfind _ (preferred_are_fallback template) Ep).
    + intros Hf. left. by apply (Hfind fallbackEngines).
Qed.

(** X28: [selectEngine] finds no engine exactly when [which] finds none of
    xelatex, pdflatex, lualatex and typst, and the requested engine is
    [auto] or not available either. *)
Theorem no_engine_exactly_when_none_is_installed (engine template : string) (s : State) :
  cache_sound which s ->
  fst (selectEngine which engine template s) = None <->
  Forall (fun e => which e = false) fallbackEngines /\
  (engine = "auto" \/ available which engine = false).
Proof.
  intros Hs. rewrite (proj2 (selectEngine_spec engine template s Hs)).
  unfold chosen_engine.
  assert (find (available which) fallbackEngines = None <->
          Forall (fun e => which e = false) fallbackEngines) as Hfall.
  { rewrite Forall_forall. split.
    - intros Hnone e He%list_elem_of_In.
      rewrite <- (fallback_installed e He). by apply (find_none _ _ Hnone).
    - intros Hall. destruct (find (available which) fallbackEngines) as [e|] eqn:E; [|done].
      apply find_some in E as [Hin Ha]. rewrite fallback_installed in Ha by done.
      rewrite (Hall e) in Ha; [done | by apply list_elem_of_In]. }
  assert (negb (String.eqb engine "auto") && available which engine = false <->
          engine = "auto" \/ available which engine = false) as Hreq.
  { rewrite andb_false_iff, negb_false_iff, String.eqb_eq. done. }
  rewrite <- Hfall, <- Hreq.
  destruct (negb (String.eqb engine "auto") && available which engine).
  - split; [done | by intros [_ ?]].
  - destruct (find (available which) (preferredEngines template)) as [e|] eqn:Ep.
    + split; [done|]. intros [Hnone _]. apply find_some in Ep as [Hin Ha].
      apply preferred_are_fallback in Hin. by rewrite (find_none _ _ Hnone e Hin) in Ha.
    + tauto.
Qed.

(** X29: over the engine choices of any number of generations by one
    generator, no engine is looked up with [which] twice, and no inherited
    name is looked up at all. *)
Theorem engines_are_looked_up_once (requests : list (string * string)) :
  NoDup (looked_up (generate_all which requests new_generator)) /\
  forall engine,
    engine ∈ looked_up (generate_all which requests new_generator) ->
    (engine ∉ inherited_keys) /\
    engineCache (generate_all which requests new_generator) !! engine = Some (which engine).
Proof.
  destruct (generate_all_sound requests new_generator cache_sound_new) as (Hc & Hn & Hl).
  split; [done|]. intros engine [found E]%Hl. destruct (Hc _ _ E) as [-> Hni]. done.
Qed.

(** X30: a requested engine named like a property every object inherits,
    such as [toString], passes for available: [selectEngine] returns it
    without looking it up, and leaves the cache as it was. *)
Theorem inherited_name_passes_for_an_engine (engine template : string) (s : State) :
  engine ∈ inherited_keys ->
  cache_sound which s ->
  selectEngine which engine template s = (Some engine, s).
Proof.
  intros Hin (Hc & _). unfold selectEngine, isEngineAvailable.
  assert (String.eqb engine "auto" = false) as ->.
  { apply String.eqb_neq. intros ->. unfold inherited_keys in Hin.
    repeat (apply elem_of_cons in Hin as [Hin|Hin]; [discriminate Hin|]).
    by apply elem_of_nil in Hin. }
  simpl. destruct (engineCache s !! engine) as [found|] eqn:E.
  - by destruct (Hc _ _ E) as [_ Hni].
  - by rewrite bool_decide_eq_true_2.
Qed.

End Engines.

Section EngineExamples.

Import PdfGenerator.

Lemma engine_cache_is_transparent_witness :
  fst (selectEngine typst_only "xelatex" "eisvogel"
         (generate_all typst_only [("auto", "academic"); ("lualatex", "corporate")]
            new_generator))
  = fst (selectEngine typst_only "xelatex" "eisvogel" new_generator).
Proof.
  apply (engine_cache_is_transparent typst_only "xelatex" "eisvogel").
  apply generate_all_sound, cache_sound_new.
Defined.

Lemma selectEngine_returns_an_installed_engine_witness :
  typst_only "typst" = true \/ ("typst" = "xelatex" /\ "typst" ∈ inherited_keys).
Proof.
  apply (selectEngine_returns_an_installed_engine typst_only "xelatex" "eisvogel" "typst"
           new_generator); [apply cache_sound_new | reflexivity].
Defined.

Lemma no_engine_exactly_when_none_is_installed_witness :
  fst (selectEngine nothing_installed "xelatex" "academic" new_generator) = None.
Proof.
  apply (proj2 (no_engine_exactly_when_none_is_installed nothing_installed "xelatex" "academic"
                  new_generator (cache_sound_new nothing_installed))).
  split; [repeat constructor | by right].
Defined.

Lemma inherited_name_passes_for_an_engine_witness :
  selectEngine nothing_installed "toString" "academic" new_generator
  = (Some "toString", new_generator).
Proof.
  apply (inherited_name_passes_for_an_engine nothing_installed "toString" "academic"
           new_generator); [unfold inherited_keys; repeat constructor | apply cache_sound_new].
Defined.

End EngineExamples.
